(** * p2p-chat-app: the masking utility, the expiring message store and the
      connect handler of [main.py], embedded in Rocq.

    Conventions of the embedding.
    - A Python [bytes] value is a [list byte]; iterating it yields the
      integers [Byte.to_N b], and [bytes([...])] converts integers back,
      raising [ValueError] outside [range(256)].
    - A Python exception is a value of [exn]; a function that may raise
      returns a [result].
    - A Python [float] is an IEEE 754 binary64 value, a [spec_float] of
      the Standard Library with its operations at precision 53 and
      maximal exponent 1024: sums and differences round to nearest, ties
      to even.  [time.time()] is such a value, and every clock reading is
      an argument of the operation that performs it.
    - A Python [str] is a [string]; its characters are the code points
      below 256 (what [bytes.fromhex] does above 127 does not depend on
      the code point). *)

From Stdlib Require Import List Arith PeanoNat NArith ZArith QArith Bool Lia.
From Stdlib Require Import Strings.Ascii Strings.String Strings.Byte.
From Stdlib Require Import Numbers.DecimalString Sorting.Sorted.
From Stdlib Require Import Numbers.DecimalPos Numbers.DecimalN.
From Stdlib Require Import Floats.SpecFloat.
Import ListNotations.

Set Implicit Arguments.

Local Open Scope string_scope.
Local Open Scope Q_scope.
Local Open Scope nat_scope.
Local Open Scope list_scope.

(** ** Exceptions and results *)

Inductive exn : Type :=
| TypeError (msg : string)
| ZeroDivisionError (msg : string)
| ValueError (msg : string)
| OverflowError (msg : string).

(** [str(ex)], as interpolated by an f-string. *)
Definition exn_str (e : exn) : string :=
  match e with
  | TypeError msg => msg
  | ZeroDivisionError msg => msg
  | ValueError msg => msg
  | OverflowError msg => msg
  end.

Inductive result (A : Type) : Type :=
| Ok (a : A)
| Raise (e : exn).

Arguments Ok {A} a.
Arguments Raise {A} e.

Definition bind {A B : Type} (r : result A) (k : A -> result B) : result B :=
  match r with
  | Ok a => k a
  | Raise e => Raise e
  end.

Declare Scope result_scope.
Delimit Scope result_scope with res.
Bind Scope result_scope with result.

Notation "x <- r ;; k" := (bind r (fun x => k))
  (at level 61, r at next level, right associativity) : result_scope.

Local Open Scope result_scope.

(** ** Python primitives used by the program *)

Definition bytes := list byte.

(** [a // b] on non-negative integers. *)
Definition floordiv (a b : nat) : result nat :=
  match b with
  | O => Raise (ZeroDivisionError "integer division or modulo by zero")
  | S _ => Ok (a / b)
  end.

(** [b * n] on a bytes value: [n] copies of [b], concatenated. *)
Fixpoint bytes_mul (b : bytes) (n : nat) : bytes :=
  match n with
  | O => []
  | S n' => b ++ bytes_mul b n'
  end.

(** [bytes(ints)]: every integer must be in [range(256)]. *)
Fixpoint bytes_of_ints (l : list N) : result bytes :=
  match l with
  | [] => Ok []
  | n :: l' =>
      match Byte.of_N n with
      | None => Raise (ValueError "bytes must be in range(0, 256)")
      | Some b => bs <- bytes_of_ints l' ;; Ok (b :: bs)
      end
  end.

(** Truth value of an optional bytes object: [None] and [b''] are falsy. *)
Definition bytes_truthy (o : option bytes) : bool :=
  match o with
  | None => false
  | Some [] => false
  | Some (_ :: _) => true
  end.

(** ** CryptoManager *)

Module CryptoManager.

Record t : Type := mk {
  key : bytes;
  peer_key : option bytes
}.

(** [__init__]: [rand] is the value of [os.urandom(32)]. *)
Definition init (rand : bytes) : t := mk rand None.


Definition set_peer_key (self : t) (pk : bytes) : t :=
  mk (key self) (Some pk).

(** [len(self.peer_key)] *)
Definition peer_key_len (self : t) : result nat :=
  match peer_key self with
  | None => Raise (TypeError "object of type 'NoneType' has no len()")
  | Some pk => Ok (List.length pk)
  end.

(** [self.peer_key * n] *)
Definition peer_key_mul (self : t) (n : nat) : result bytes :=
  match peer_key self with
  | None =>
      Raise (TypeError "unsupported operand type(s) for *: 'NoneType' and 'int'")
  | Some pk => Ok (bytes_mul pk n)
  end.

Definition xor_pair (pk : byte * byte) : N :=
  let (p, k) := pk in N.lxor (Byte.to_N p) (Byte.to_N k).

(** The two statements of [encrypt] below its guard. *)
Definition encrypt_masked (self : t) (plaintext : bytes) : result bytes :=
  n <- peer_key_len self ;;
  q <- floordiv (List.length plaintext) n ;;
  key <- peer_key_mul self (q + 1) ;;
  bytes_of_ints
    (map xor_pair (combine plaintext (firstn (List.length plaintext) key))).

Definition encrypt (self : t) (plaintext : bytes) : result bytes :=
  if negb (bytes_truthy (peer_key self)) then Ok plaintext
  else encrypt_masked self plaintext.

Definition decrypt (self : t) (ciphertext : bytes) : result bytes :=
  encrypt self ciphertext.

End CryptoManager.

(** ** Floating-point numbers *)

(** A Python [float]. *)
Definition float : Type := spec_float.

(** [x + y] and [x - y] on floats. *)
Definition float_add (x y : float) : float := SFadd 53 1024 x y.
Definition float_sub (x y : float) : float := SFsub 53 1024 x y.

(** [x > y] on floats; it is false when one of them is not a number. *)
Definition float_gt (x y : float) : bool := SFltb y x.

(** Truth value of a float: the two zeros are falsy. *)
Definition float_truthy (x : float) : bool :=
  match x with
  | S754_zero _ => false
  | _ => true
  end.

(** The float nearest to [m * 2^e], ties to even. *)
Definition dyadic (m e : Z) : float := binary_normalize 53 1024 m e false.

(** The float of a whole number of seconds. *)
Definition seconds (z : Z) : float := dyadic z 0.

(** The conversion of the integer operand of [float + int]: the nearest
    float, and [OverflowError] when that would be of magnitude
    [2^1024]. *)
Definition float_of_int (z : Z) : result float :=
  if (2 ^ 1024 - 2 ^ 970 <=? Z.abs z)%Z
  then Raise (OverflowError "int too large to convert to float")
  else Ok (dyadic z 0).

(** ** MessageStore *)

(** One entry of [self.messages]: the dict with keys ["sender"],
    ["message"], ["expiry"] and ["time"]. *)
Record message : Type := mk_message {
  sender : string;
  body : string;
  expiry : option float;
  time : string
}.

(** What an operation reads from the [time] module: the value of
    [time.time()] and the value of [time.strftime("%H:%M")]. *)
Record clock : Type := mk_clock {
  time_time : float;
  strftime_HM : string
}.

(** Truth value of [ttl]: [None] and [0] are falsy. *)
Definition ttl_truthy (ttl : option Z) : bool :=
  match ttl with
  | None => false
  | Some z => negb (z =? 0)%Z
  end.

(** Truth value of [m.get("expiry")]: [None] and a zero number are falsy. *)
Definition expiry_truthy (e : option float) : bool :=
  match e with
  | None => false
  | Some q => float_truthy q
  end.

Module MessageStore.

(** [self.messages] *)
Definition t : Type := list message.

Definition init : t := [].

(** The dict that [add] builds; computing its expiry can raise. *)
Definition entry (c : clock) (who text : string) (ttl : option Z)
  : result message :=
  expiry <- (if ttl_truthy ttl then
               match ttl with
               | Some z =>
                   f <- float_of_int z ;; Ok (Some (float_add (time_time c) f))
               | None => Ok None
               end
             else Ok None) ;;
  Ok (mk_message who text expiry (strftime_HM c)).

Definition add (c : clock) (who text : string) (ttl : option Z) (self : t)
  : result t :=
  m <- entry c who text ttl ;; Ok (self ++ [m]).

Definition delete_all (self : t) : t := [].

(** The condition of the list comprehension in [cleanup_expired]. *)
Definition keeps (now : float) (m : message) : bool :=
  negb (expiry_truthy (expiry m))
  || match expiry m with
     | Some e => float_gt e now
     | None => false
     end.

Definition cleanup_expired (now : float) (self : t) : t :=
  filter (keeps now) self.

(** [get_all] returns the list it leaves in [self.messages]: the first
    component is the returned value, the second the store afterwards. *)
Definition get_all (now : float) (self : t) : list message * t :=
  let self' := cleanup_expired now self in (self', self').

(** A call on the store, with what it reads from the clock. *)
Inductive op : Type :=
| Add (c : clock) (who text : string) (ttl : option Z)
| DeleteAll
| GetAll (now : float).

(** The store after one call; a call that raises leaves it as it was. *)
Definition step (self : t) (o : op) : t :=
  match o with
  | Add c who text ttl =>
      match add c who text ttl self with
      | Ok self' => self'
      | Raise _ => self
      end
  | DeleteAll => delete_all self
  | GetAll now => snd (get_all now self)
  end.

(** The store after a sequence of calls. *)
Definition run (ops : list op) (self : t) : t := fold_left step ops self.

(** The values returned by the [get_all] calls of a sequence, each with
    the clock value it read, in call order. *)
Fixpoint reads (ops : list op) (self : t) : list (float * list message) :=
  match ops with
  | [] => []
  | GetAll now :: ops' =>
      (now, fst (get_all now self)) :: reads ops' (snd (get_all now self))
  | o :: ops' => reads ops' (step self o)
  end.

Definition is_delete (o : op) : bool :=
  match o with DeleteAll => true | _ => false end.

(** The clock values read by the [get_all] calls of a sequence. *)
Fixpoint read_times (ops : list op) : list float :=
  match ops with
  | [] => []
  | GetAll now :: ops' => now :: read_times ops'
  | _ :: ops' => read_times ops'
  end.

(** The messages added by a sequence of calls, in call order. *)
Fixpoint added (ops : list op) : list message :=
  match ops with
  | [] => []
  | Add c who text ttl :: ops' =>
      match entry c who text ttl with
      | Ok m => m :: added ops'
      | Raise _ => added ops'
      end
  | _ :: ops' => added ops'
  end.

End MessageStore.

(** ** String primitives *)

Fixpoint str_repeat (fill : ascii) (n : nat) : string :=
  match n with
  | O => EmptyString
  | S n' => String fill (str_repeat fill n')
  end.

(** [s.ljust(width, fill)] *)
Definition ljust (s : string) (width : nat) (fill : ascii) : string :=
  if width <=? String.length s then s
  else (s ++ str_repeat fill (width - String.length s))%string.

(** [s[:n]] *)
Definition str_prefix (n : nat) (s : string) : string := substring 0 n s.

(** [str(n)] for a non-negative integer. *)
Definition str_of_nat (n : nat) : string := NilZero.string_of_uint (Nat.to_uint n).

(** [str(n)], the decimal numeral of a natural number in binary. *)
Definition numeral (n : N) : string := NilZero.string_of_uint (N.to_uint n).

(** *** [bytes.fromhex], after CPython's [_PyBytes_FromHex] *)

(** The table [_PyLong_DigitValue]: the value of a digit in base 36, and
    37 for every other character. *)
Definition PyLong_DigitValue (c : ascii) : N :=
  let n := N_of_ascii c in
  if ((48 <=? n) && (n <=? 57))%N then (n - 48)%N
  else if ((97 <=? n) && (n <=? 122))%N then (n - 87)%N
  else if ((65 <=? n) && (n <=? 90))%N then (n - 55)%N
  else 37%N.

(** [Py_ISSPACE]: tab, line feed, vertical tab, form feed, carriage
    return and space. *)
Definition Py_ISSPACE (c : ascii) : bool :=
  let n := N_of_ascii c in
  (((9 <=? n) && (n <=? 13)) || (n =? 32))%N.

Definition non_hex_error (pos : nat) : exn :=
  ValueError
    ("non-hexadecimal number found in fromhex() arg at position "
       ++ str_of_nat pos)%string.

Definition odd_hex_error : exn :=
  ValueError "fromhex() arg must contain an even number of hexadecimal digits".

(** The position of the first character that is not ASCII, counted from
    [pos]. *)
Fixpoint first_non_ascii (s : list ascii) (pos : nat) : option nat :=
  match s with
  | [] => None
  | c :: s' =>
      if (128 <=? N_of_ascii c)%N then Some pos
      else first_non_ascii s' (S pos)
  end.

(** [(unsigned char)((top << 4) + bot)] *)
Definition byte_of_nibbles (top bot : N) : byte :=
  byte_of_ascii (ascii_of_N (N.shiftl top 4 + bot)).

(** The decoding loop; [pos] is the index of the head of [s] in the
    argument.  White space is skipped between bytes only. *)
Fixpoint fromhex_loop (s : list ascii) (pos : nat) {struct s} : result bytes :=
  match s with
  | [] => Ok []
  | c :: s1 =>
      if Py_ISSPACE c then fromhex_loop s1 (S pos)
      else
        let top := PyLong_DigitValue c in
        if (16 <=? top)%N then Raise (non_hex_error pos)
        else
          match s1 with
          | [] => Raise odd_hex_error
          | d :: s2 =>
              let bot := PyLong_DigitValue d in
              if (16 <=? bot)%N then Raise (non_hex_error (S pos))
              else
                rest <- fromhex_loop s2 (S (S pos)) ;;
                Ok (byte_of_nibbles top bot :: rest)
          end
  end.

Definition bytes_fromhex (s : string) : result bytes :=
  let cs := list_ascii_of_string s in
  match first_non_ascii cs 0 with
  | Some pos => Raise (non_hex_error pos)
  | None => fromhex_loop cs 0
  end.

(** ** P2PChatApp *)

Inductive icon : Type := LOCK_OPEN | LOCK.
Inductive color : Type := RED | GREEN | GREY.

(** The fields of the application object that its handlers read or
    assign.  A chat bubble is represented by the message it displays. *)
Record App : Type := mk_App {
  crypto : CryptoManager.t;
  store : MessageStore.t;
  is_connected : bool;
  peer_id : option string;
  status_icon_name : icon;
  status_icon_color : color;
  status_text : string;
  connect_btn_text : string;
  connect_btn_bgcolor : color;
  chat_list : list message
}.

(** A method of the application: it runs on the object, mutates it, and
    either returns or raises.  What was assigned before an exception
    stays assigned. *)
Definition M (A : Type) : Type := App -> result A * App.

Definition ret {A : Type} (a : A) : M A := fun self => (Ok a, self).

Definition mbind {A B : Type} (m : M A) (k : A -> M B) : M B :=
  fun self =>
    match m self with
    | (Ok a, self') => k a self'
    | (Raise e, self') => (Raise e, self')
    end.

Definition lift {A : Type} (r : result A) : M A := fun self => (r, self).

Definition assign (f : App -> App) : M unit := fun self => (Ok tt, f self).

(** [try: body  except Exception as ex: handler(ex)] on the object. *)
Definition mtry {A : Type} (body : M A) (handler : exn -> M A) : M A :=
  fun self =>
    match body self with
    | (Ok a, self') => (Ok a, self')
    | (Raise e, self') => handler e self'
    end.

Declare Scope app_scope.
Delimit Scope app_scope with app.
Bind Scope app_scope with M.

Notation "x <- m ;; k" := (mbind m (fun x => k))
  (at level 61, m at next level, right associativity) : app_scope.
Notation "m ;;; k" := (mbind m (fun _ => k))
  (at level 61, right associativity) : app_scope.

Definition set_crypto (v : CryptoManager.t) (a : App) : App :=
  mk_App v (store a) (is_connected a) (peer_id a) (status_icon_name a)
    (status_icon_color a) (status_text a) (connect_btn_text a)
    (connect_btn_bgcolor a) (chat_list a).

Definition set_store (v : MessageStore.t) (a : App) : App :=
  mk_App (crypto a) v (is_connected a) (peer_id a) (status_icon_name a)
    (status_icon_color a) (status_text a) (connect_btn_text a)
    (connect_btn_bgcolor a) (chat_list a).

Definition set_is_connected (v : bool) (a : App) : App :=
  mk_App (crypto a) (store a) v (peer_id a) (status_icon_name a)
    (status_icon_color a) (status_text a) (connect_btn_text a)
    (connect_btn_bgcolor a) (chat_list a).

Definition set_peer_id (v : option string) (a : App) : App :=
  mk_App (crypto a) (store a) (is_connected a) v (status_icon_name a)
    (status_icon_color a) (status_text a) (connect_btn_text a)
    (connect_btn_bgcolor a) (chat_list a).

Definition set_status_icon (n : icon) (c : color) (a : App) : App :=
  mk_App (crypto a) (store a) (is_connected a) (peer_id a) n c
    (status_text a) (connect_btn_text a) (connect_btn_bgcolor a) (chat_list a).

Definition set_status_text (v : string) (a : App) : App :=
  mk_App (crypto a) (store a) (is_connected a) (peer_id a) (status_icon_name a)
    (status_icon_color a) v (connect_btn_text a) (connect_btn_bgcolor a)
    (chat_list a).

Definition set_connect_btn (txt : string) (c : color) (a : App) : App :=
  mk_App (crypto a) (store a) (is_connected a) (peer_id a) (status_icon_name a)
    (status_icon_color a) (status_text a) txt c (chat_list a).

Definition set_chat_list (v : list message) (a : App) : App :=
  mk_App (crypto a) (store a) (is_connected a) (peer_id a) (status_icon_name a)
    (status_icon_color a) (status_text a) (connect_btn_text a)
    (connect_btn_bgcolor a) v.

(** [__init__] with [setup_ui]: [rand] is the value of [os.urandom(32)]. *)
Definition App_init (rand : bytes) : App :=
  mk_App (CryptoManager.init rand) MessageStore.init false None
    LOCK_OPEN RED "Not Connected" "Connect" GREEN [].

(** [self.store.add(who, text, ttl)] *)
Definition store_add (c : clock) (who text : string) (ttl : option Z) : M unit :=
  fun a =>
    match MessageStore.add c who text ttl (store a) with
    | Ok st => (Ok tt, set_store st a)
    | Raise e => (Raise e, a)
    end.

(** [refresh_chat]: the bubbles are rebuilt from [self.store.get_all()],
    which prunes the store. *)
Definition refresh_chat (c : clock) : M unit :=
  (assign (set_chat_list []) ;;;
   assign (fun a =>
     let (shown, st) := MessageStore.get_all (time_time c) (store a) in
     set_chat_list shown (set_store st a)))%app.

Definition connect_to_peer (c : clock) (pid : string) : M unit :=
  mtry
    (peer_key <- lift (bytes_fromhex (ljust pid 64 "0")) ;;
     assign (fun a => set_crypto (CryptoManager.set_peer_key (crypto a) peer_key) a) ;;;
     assign (set_peer_id (Some pid)) ;;;
     assign (set_is_connected true) ;;;
     assign (set_status_icon LOCK GREEN) ;;;
     assign (set_status_text ("Connected to " ++ str_prefix 8 pid ++ "...")%string) ;;;
     assign (set_connect_btn "Connected" GREY) ;;;
     store_add c "System" ("Connected to peer " ++ str_prefix 8 pid ++ "...")%string None ;;;
     refresh_chat c)%app
    (fun ex =>
       (store_add c "System" ("Connection failed: " ++ exn_str ex)%string None ;;;
        refresh_chat c)%app).

(** ** The rest of the handlers *)

(** *** [bytes.hex] and the identifier shown to the user *)

(** One character of ["0123456789abcdef"]. *)
Definition hex_digit (n : N) : ascii :=
  ascii_of_N (if (n <? 10)%N then 48 + n else 87 + n)%N.

(** [b.hex()]: two lower-case digits per byte, high nibble first. *)
Fixpoint bytes_hex (b : bytes) : string :=
  match b with
  | [] => EmptyString
  | x :: b' =>
      String (hex_digit (N.shiftr (Byte.to_N x) 4))
        (String (hex_digit (N.land (Byte.to_N x) 15)) (bytes_hex b'))
  end.


(** *** [str.strip] *)

(** [str.isspace] on one character, for the code points below 256. *)
Definition Py_UNICODE_ISSPACE (c : ascii) : bool :=
  let n := N_of_ascii c in
  (((9 <=? n) && (n <=? 13)) || ((28 <=? n) && (n <=? 32))
   || (n =? 133) || (n =? 160))%N.

Fixpoint lstrip (s : list ascii) : list ascii :=
  match s with
  | [] => []
  | c :: s' => if Py_UNICODE_ISSPACE c then lstrip s' else s
  end.

Definition rstrip (s : list ascii) : list ascii := rev (lstrip (rev s)).

(** [s.strip()] *)
Definition str_strip (s : string) : string :=
  string_of_list_ascii (rstrip (lstrip (list_ascii_of_string s))).

(** Truth value of a string: only the empty string is falsy. *)
Definition str_truthy (s : string) : bool :=
  match s with
  | EmptyString => false
  | String _ _ => true
  end.

(** *** [wipe_chat], the dialog's [connect] and the polling loop *)

(** The notice of [wipe_chat]; its first character, U+1F525, is written
    in UTF-8. *)
Definition wiped_notice : string := "🔥 Chat wiped!".

Definition wipe_chat (c : clock) : M unit :=
  (assign (fun a => set_store (MessageStore.delete_all (store a)) a) ;;;
   store_add c "System" wiped_notice None ;;;
   refresh_chat c)%app.

(** The callback [connect] of [show_connect_dialog]; [peer_input] is the
    text of the dialog's field. *)
Definition dialog_connect (c : clock) (peer_input : string) : M unit :=
  let pid := str_strip peer_input in
  if str_truthy pid then connect_to_peer c pid else ret tt.


(** *** [send_message] *)

(** [str.isdigit] on one character, for the code points below 256: the
    ASCII digits and the superscripts two, three and one. *)
Definition Py_UNICODE_ISDIGIT (c : ascii) : bool :=
  let n := N_of_ascii c in
  (((48 <=? n) && (n <=? 57)) || (n =? 178) || (n =? 179) || (n =? 185))%N.

(** [s.isdigit()]: at least one character, and digits only. *)
Definition str_isdigit (s : string) : bool :=
  str_truthy s && forallb Py_UNICODE_ISDIGIT (list_ascii_of_string s).

Definition is_ascii_digit (c : ascii) : bool :=
  let n := N_of_ascii c in ((48 <=? n) && (n <=? 57))%N.

(** The number of ASCII digits [int] scans at the head of its argument. *)
Fixpoint count_digits (s : list ascii) : nat :=
  match s with
  | [] => 0
  | c :: s' => if is_ascii_digit c then S (count_digits s') else 0
  end.

(** [int(s)] for a string [s] that [isdigit] accepts.  [max_str_digits]
    is [sys.get_int_max_str_digits()], 0 where the interpreter has no
    limit.  The digits are counted first, then the limit is checked, then
    a character that is no decimal digit is refused. *)
Definition py_int (max_str_digits : nat) (s : string) : result Z :=
  let digits := count_digits (list_ascii_of_string s) in
  if (0 <? max_str_digits) && (max_str_digits <? digits) then
    Raise (ValueError
             ("Exceeds the limit (" ++ str_of_nat max_str_digits
                ++ " digits) for integer string conversion: value has "
                ++ str_of_nat digits
                ++ " digits; use sys.set_int_max_str_digits() to increase the limit")%string)
  else
    match NilZero.uint_of_string s with
    | Some d => Ok (Z.of_uint d)
    | None =>
        Raise (ValueError
                 ("invalid literal for int() with base 10: '" ++ s ++ "'")%string)
    end.

(** The [value] of the two text fields. *)
Record Form : Type := mk_Form {
  msg_input : string;
  ttl_input : string
}.

(** The statements of [send_message] that compute [ttl]. *)
Definition parse_ttl (max_str_digits : nat) (v : string) : result (option Z) :=
  if str_truthy v && str_isdigit (str_strip v) then
    z <- py_int max_str_digits (str_strip v) ;; Ok (Some z)
  else Ok None.

(** [send_message]: [c] is the clock that [add] reads, [c'] the clock that
    [refresh_chat] reads afterwards.  The first component is [None] when
    the handler returns. *)
Definition send_message (max_str_digits : nat) (c c' : clock) (st : App * Form)
  : option exn * (App * Form) :=
  let (a, f) := st in
  let msg := str_strip (msg_input f) in
  if negb (str_truthy msg) then (None, st)
  else
    match parse_ttl max_str_digits (ttl_input f) with
    | Raise e => (Some e, st)
    | Ok ttl =>
        match MessageStore.add c "You" msg ttl (store a) with
        | Raise e => (Some e, st)
        | Ok st1 =>
            let a1 := set_store st1 a in
            let f1 := mk_Form "" "" in
            match refresh_chat c' a1 with
            | (Ok _, a2) => (None, (a2, f1))
            | (Raise e, a2) => (Some e, (a2, f1))
            end
        end
    end.

(** *** The bubble of one message in [refresh_chat] *)

Inductive paint : Type := AMBER_100 | BLACK | BLUE_400 | WHITE | GREEN_400.

Record bubble : Type := mk_bubble {
  bubble_sender : string;
  bubble_time_info : string;
  bubble_body : string;
  bubble_text_color : paint;
  bubble_bgcolor : paint;
  bubble_margin_left : nat;
  bubble_margin_right : nat
}.

(** The number a finite float stands for. *)
Definition Q_of_float (x : float) : Q :=
  match x with
  | S754_finite s m e =>
      let n := if s then Zneg m else Zpos m in
      match e with
      | Zneg p => Qmake n (2 ^ p)
      | _ => inject_Z (n * 2 ^ e)
      end
  | _ => 0%Q
  end.

(** The fraction of a number is cut, towards zero. *)
Definition py_int_of_Q (x : Q) : Z := Z.quot (Qnum x) (QDen x).

(** [int(x)] on a float: the fraction is cut, towards zero; an infinity
    and a value that is not a number are refused. *)
Definition py_int_of_float (x : float) : result Z :=
  match x with
  | S754_nan => Raise (ValueError "cannot convert float NaN to integer")
  | S754_infinity _ =>
      Raise (OverflowError "cannot convert float infinity to integer")
  | _ => Ok (py_int_of_Q (Q_of_float x))
  end.

(** The body of the loop of [refresh_chat] for the message [m]; [now] is
    the value of [time.time()] read for it.  The flame before the
    countdown, U+1F525, is written in UTF-8. *)
Definition render (now : float) (m : message) : result bubble :=
  let is_you := String.eqb (sender m) "You" in
  let is_system := String.eqb (sender m) "System" in
  time_info <-
    (if expiry_truthy (expiry m) then
       match expiry m with
       | Some e =>
           remaining <- py_int_of_float (float_sub e now) ;;
           Ok (if (0 <? remaining)%Z
               then (time m ++ " 🔥" ++ numeral (Z.to_N remaining) ++ "s")%string
               else time m)
       | None => Ok (time m)
       end
     else Ok (time m)) ;;
  let (bg_color, text_color) :=
    if is_system then (AMBER_100, BLACK)
    else if is_you then (BLUE_400, WHITE)
    else (GREEN_400, WHITE) in
  Ok (mk_bubble (sender m) time_info (body m) text_color bg_color
        (if is_you then 50 else 0) (if is_you then 0 else 50)).

(** *** The page as a whole *)

(** What the user and the timer do to the page: the callbacks wired in
    [setup_ui] and [show_connect_dialog], each with the text typed into
    its fields and the clock values it reads, and one iteration of the
    loop of [auto_refresh]. *)
Inductive event : Type :=
| ClickConnect (c : clock) (peer_input : string)
| ClickSend (c c' : clock) (msg ttl : string)
| ClickWipe (c : clock)
| Tick (c : clock).

(** The page after one event.  An exception raised by a handler is
    dropped by the event loop; what the handler did before stays. *)
Definition handle (max_str_digits : nat) (a : App) (e : event) : App :=
  match e with
  | ClickConnect c peer_input => snd (dialog_connect c peer_input a)
  | ClickSend c c' msg ttl =>
      fst (snd (send_message max_str_digits c c' (a, mk_Form msg ttl)))
  | ClickWipe c => snd (wipe_chat c a)
  | Tick c => snd (refresh_chat c a)
  end.

(** The page after a sequence of events, from its construction. *)
Definition session (max_str_digits : nat) (rand : bytes) (evs : list event) : App :=
  fold_left (handle max_str_digits) evs (App_init rand).

(** ** Auxiliary definitions of the statements *)

(** The byte [p ^ k], for two bytes. *)
Definition bxor (p k : byte) : byte :=
  match Byte.of_N (N.lxor (Byte.to_N p) (Byte.to_N k)) with
  | Some b => b
  | None => x00
  end.

(** Byte-wise exclusive-or of a text with a key stream. *)
Definition mask (text ks : bytes) : bytes :=
  map (fun pk : byte * byte => bxor (fst pk) (snd pk)) (combine text ks).

(** The key stream [encrypt] builds for a text of [n] bytes. *)
Definition keystream (pk : bytes) (n : nat) : bytes :=
  firstn n (bytes_mul pk (n / List.length pk + 1)).

(** [l] lists entries of the history [hist] at strictly increasing
    positions: the elements of [l] come in the order in which [hist] has
    them. *)
Definition in_added_order (hist l : list message) : Prop :=
  exists idx : list nat,
    StronglySorted lt idx
    /\ Forall2 (fun i m => nth_error hist i = Some m) idx l.

(** No character of [s] is white space for [bytes.fromhex]. *)
Definition no_space (s : list ascii) : bool :=
  forallb (fun ch => negb (Py_ISSPACE ch)) s.

(** The later of two clock values; it is not a number when one of them
    is not. *)
Definition later (a b : float) : float :=
  if SFleb a b then b else if SFleb b a then a else S754_nan.

(** A float that is a number and no infinity. *)
Definition float_finite (x : float) : bool :=
  match x with
  | S754_zero _ | S754_finite _ _ _ => true
  | _ => false
  end.

(** A message that a handler of the page can have added: one from
    ["You"], or a notice from ["System"] without expiry. *)
Definition own_message (m : message) : Prop :=
  sender m = "You" \/ (sender m = "System" /\ expiry m = None).

(** What every handler of the page keeps; [rand] is the local key. *)
Definition page_inv (rand : bytes) (a : App) : Prop :=
  Forall own_message (store a)
  /\ chat_list a = store a
  /\ CryptoManager.key (crypto a) = rand
  /\ (is_connected a = true <-> exists key, CryptoManager.peer_key (crypto a) = Some key)
  /\ (is_connected a = true <-> exists pid, peer_id a = Some pid)
  /\ (forall key, CryptoManager.peer_key (crypto a) = Some key -> key <> []).

(** * Properties *)

(** ** The masking utility *)

Section Masking.

Import CryptoManager.

Lemma lxor_byte_bound (a b : byte) :
  (N.lxor (Byte.to_N a) (Byte.to_N b) <= 255)%N.
Proof.
  pose proof (Byte.to_N_bounded a) as Ha.
  pose proof (Byte.to_N_bounded b) as Hb.
  destruct (N.eq_dec (N.lxor (Byte.to_N a) (Byte.to_N b)) 0) as [E | E].
  - rewrite E. lia.
  - assert (HL : (N.log2 (N.lxor (Byte.to_N a) (Byte.to_N b)) < 8)%N).
    { eapply N.le_lt_trans; [apply N.log2_lxor |].
      apply N.max_lub_lt.
      - apply N.le_lt_trans with (N.log2 255); [now apply N.log2_le_mono | reflexivity].
      - apply N.le_lt_trans with (N.log2 255); [now apply N.log2_le_mono | reflexivity]. }
    apply N.log2_lt_pow2 in HL; [| lia].
    change (2 ^ 8)%N with 256%N in HL. lia.
Qed.

Lemma of_N_lxor (p k : byte) :
  Byte.of_N (N.lxor (Byte.to_N p) (Byte.to_N k)) = Some (bxor p k).
Proof.
  unfold bxor.
  destruct (Byte.of_N (N.lxor (Byte.to_N p) (Byte.to_N k))) eqn:E; [reflexivity |].
  apply Byte.of_N_None_iff in E.
  pose proof (lxor_byte_bound p k). lia.
Qed.

Lemma to_N_bxor (p k : byte) :
  Byte.to_N (bxor p k) = N.lxor (Byte.to_N p) (Byte.to_N k).
Proof. apply Byte.to_of_N, of_N_lxor. Qed.

Lemma to_N_inj (a b : byte) : Byte.to_N a = Byte.to_N b -> a = b.
Proof.
  intros E. pose proof (Byte.of_to_N a) as Ha.
  rewrite E, Byte.of_to_N in Ha. congruence.
Qed.

Lemma bxor_involutive (p k : byte) : bxor (bxor p k) k = p.
Proof.
  apply to_N_inj. rewrite !to_N_bxor.
  rewrite N.lxor_assoc, N.lxor_nilpotent, N.lxor_0_r. reflexivity.
Qed.

Lemma bytes_of_ints_xor (l : list (byte * byte)) :
  bytes_of_ints (map xor_pair l)
  = Ok (map (fun pk : byte * byte => bxor (fst pk) (snd pk)) l).
Proof.
  induction l as [| [p k] l IH]; simpl; [reflexivity |].
  rewrite of_N_lxor, IH. reflexivity.
Qed.

Lemma mask_length (text ks : bytes) :
  List.length ks = List.length text -> List.length (mask text ks) = List.length text.
Proof.
  intros E. unfold mask. rewrite length_map, length_combine, E. apply Nat.min_id.
Qed.

Lemma mask_involutive (text ks : bytes) :
  List.length ks = List.length text -> mask (mask text ks) ks = text.
Proof.
  revert ks; induction text as [| p text IH]; intros [| k ks] E;
    simpl in *; try discriminate; [reflexivity |].
  unfold mask in *; simpl. rewrite bxor_involutive. f_equal. apply IH. lia.
Qed.

Lemma mask_nth (text ks : bytes) (i : nat) (p k : byte) :
  nth_error text i = Some p -> nth_error ks i = Some k ->
  nth_error (mask text ks) i = Some (bxor p k).
Proof.
  revert ks i; induction text as [| p0 text IH]; intros [| k0 ks] [| i] Hp Hk;
    simpl in *; try discriminate.
  - now inversion Hp; inversion Hk.
  - now apply IH.
Qed.

Lemma bytes_mul_length (pk : bytes) (n : nat) :
  List.length (bytes_mul pk n) = n * List.length pk.
Proof.
  induction n as [| n IH]; simpl; [reflexivity |].
  rewrite length_app, IH. reflexivity.
Qed.

Lemma bytes_mul_nth (pk : bytes) (n i : nat) :
  i < n * List.length pk ->
  nth_error (bytes_mul pk n) i = nth_error pk (i mod List.length pk).
Proof.
  revert i; induction n as [| n IH]; intros i Hi; simpl in *; [lia |].
  destruct (Nat.lt_ge_cases i (List.length pk)) as [Hlt | Hge].
  - rewrite nth_error_app1 by assumption.
    rewrite Nat.mod_small by assumption. reflexivity.
  - rewrite nth_error_app2 by assumption.
    rewrite IH by lia.
    assert (Hpos : List.length pk <> 0) by lia.
    replace i with ((i - List.length pk) + 1 * List.length pk) at 2 by lia.
    rewrite Nat.Div0.mod_add. reflexivity.
Qed.

Lemma tiling_covers (pk : bytes) (n : nat) :
  pk <> [] -> n < (n / List.length pk + 1) * List.length pk.
Proof.
  intros Hpk.
  assert (Hpos : List.length pk <> 0) by (destruct pk; simpl; congruence).
  pose proof (Nat.div_mod_eq n (List.length pk)) as Hdm.
  pose proof (Nat.mod_upper_bound n (List.length pk) Hpos) as Hm.
  nia.
Qed.

Lemma keystream_length (pk : bytes) (n : nat) :
  pk <> [] -> List.length (keystream pk n) = n.
Proof.
  intros Hpk. unfold keystream.
  rewrite length_firstn, bytes_mul_length.
  pose proof (tiling_covers n Hpk). lia.
Qed.

Lemma keystream_nth (pk : bytes) (n i : nat) :
  pk <> [] -> i < n ->
  nth_error (keystream pk n) i = nth_error pk (i mod List.length pk).
Proof.
  intros Hpk Hi. unfold keystream.
  rewrite nth_error_firstn.
  destruct (Nat.ltb_spec i n) as [_ | Hge]; [| lia].
  apply bytes_mul_nth.
  pose proof (tiling_covers n Hpk). lia.
Qed.

(** With a non-empty peer key, [encrypt] masks with the key stream. *)
Lemma encrypt_keyed (self : t) (pk text : bytes) :
  peer_key self = Some pk -> pk <> [] ->
  encrypt self text = Ok (mask text (keystream pk (List.length text))).
Proof.
  intros Hk Hpk. unfold encrypt, encrypt_masked, peer_key_len, peer_key_mul.
  rewrite Hk. destruct pk as [| k0 pk]; [congruence |].
  cbn [bytes_truthy negb bind floordiv List.length].
  unfold mask, keystream. apply bytes_of_ints_xor.
Qed.

(** Without a usable peer key, [encrypt] returns its argument. *)
Lemma encrypt_unkeyed (self : t) (text : bytes) :
  bytes_truthy (peer_key self) = false -> encrypt self text = Ok text.
Proof. intros H. unfold encrypt. rewrite H. reflexivity. Qed.

(** [encrypt] never raises. *)
Lemma encrypt_total (self : t) (text : bytes) :
  exists out, encrypt self text = Ok out.
Proof.
  destruct (peer_key self) as [[| k0 pk] |] eqn:Hk.
  - exists text. apply encrypt_unkeyed. now rewrite Hk.
  - eexists. apply (encrypt_keyed self text Hk). discriminate.
  - exists text. apply encrypt_unkeyed. now rewrite Hk.
Qed.

End Masking.

(** C3. Masking round trip: when a non-empty byte sequence [K] is the peer
    key currently set, encrypting any plaintext [P] and decrypting the
    result gives back exactly [P], and [decrypt] is the same operation as
    [encrypt] on every input. *)
Theorem masking_round_trip (self : CryptoManager.t) (K P : bytes) :
  CryptoManager.peer_key self = Some K -> K <> [] ->
  (C <- CryptoManager.encrypt self P ;; CryptoManager.decrypt self C) = Ok P
  /\ (forall X : bytes, CryptoManager.decrypt self X = CryptoManager.encrypt self X).
Proof.
  intros Hk Hne. split; [| reflexivity].
  rewrite (encrypt_keyed self P Hk Hne). cbn [bind].
  unfold CryptoManager.decrypt. rewrite (encrypt_keyed self _ Hk Hne).
  rewrite mask_length by now apply keystream_length.
  f_equal. apply mask_involutive. now apply keystream_length.
Qed.

Lemma masking_round_trip_witness :
  let self := CryptoManager.set_peer_key (CryptoManager.init [x2a]) [x01; x02] in
  let P := [xff; x00; x10] in
  (C <- CryptoManager.encrypt self P ;; CryptoManager.decrypt self C) = Ok P
  /\ (forall X : bytes, CryptoManager.decrypt self X = CryptoManager.encrypt self X).
Proof.
  apply (@masking_round_trip
           (CryptoManager.set_peer_key (CryptoManager.init [x2a]) [x01; x02])
           [x01; x02] [xff; x00; x10]).
  - reflexivity.
  - discriminate.
Defined.

(** C4. With a non-empty peer key [K] set, [encrypt P] has the length of
    [P]; the tiled key is at least as long as [P]; and the byte of the
    result at every index [i] is [P[i] xor K[i mod |K|]]. *)
Theorem encrypt_bytewise (self : CryptoManager.t) (K P : bytes) :
  CryptoManager.peer_key self = Some K -> K <> [] ->
  exists C : bytes,
    CryptoManager.encrypt self P = Ok C
    /\ List.length C = List.length P
    /\ List.length P
       <= List.length (bytes_mul K (List.length P / List.length K + 1))
    /\ forall (i : nat) (p : byte),
         nth_error P i = Some p ->
         exists k c : byte,
           nth_error K (i mod List.length K) = Some k
           /\ nth_error C i = Some c
           /\ Byte.to_N c = N.lxor (Byte.to_N p) (Byte.to_N k).
Proof.
  intros Hk Hne.
  exists (mask P (keystream K (List.length P))).
  split; [now apply encrypt_keyed |].
  split; [apply mask_length; now apply keystream_length |].
  split.
  { rewrite bytes_mul_length. pose proof (tiling_covers (List.length P) Hne). lia. }
  intros i p Hp.
  assert (Hi : i < List.length P) by (apply nth_error_Some; congruence).
  assert (Hlen : List.length K <> 0) by (destruct K; simpl; congruence).
  destruct (nth_error K (i mod List.length K)) as [k |] eqn:Hkk.
  - exists k, (bxor p k). split; [reflexivity |]. split.
    + apply mask_nth; [assumption |].
      rewrite keystream_nth by assumption. exact Hkk.
    + apply to_N_bxor.
  - exfalso. apply nth_error_None in Hkk.
    pose proof (Nat.mod_upper_bound i (List.length K) Hlen). lia.
Qed.

Lemma encrypt_bytewise_witness :
  exists C : bytes,
    CryptoManager.encrypt (CryptoManager.mk [x2a] (Some [x01; x02])) [xff; x00; x10]
    = Ok C
    /\ List.length C = 3
    /\ 3 <= List.length (bytes_mul [x01; x02] (3 / 2 + 1))
    /\ forall (i : nat) (p : byte),
         nth_error [xff; x00; x10] i = Some p ->
         exists k c : byte,
           nth_error [x01; x02] (i mod 2) = Some k
           /\ nth_error C i = Some c
           /\ Byte.to_N c = N.lxor (Byte.to_N p) (Byte.to_N k).
Proof.
  apply (@encrypt_bytewise (CryptoManager.mk [x2a] (Some [x01; x02]))
           [x01; x02] [xff; x00; x10]).
  - reflexivity.
  - discriminate.
Defined.

(** C5. Pass-through without a peer key: while no peer key has been set,
    [encrypt P] returns [P] and [decrypt C] returns [C], for all byte
    sequences, without raising. *)
Theorem pass_through_without_peer_key (self : CryptoManager.t) (P C : bytes) :
  CryptoManager.peer_key self = None ->
  CryptoManager.encrypt self P = Ok P /\ CryptoManager.decrypt self C = Ok C.
Proof.
  intros Hk. unfold CryptoManager.decrypt.
  split; apply encrypt_unkeyed; now rewrite Hk.
Qed.

Lemma pass_through_without_peer_key_witness :
  CryptoManager.encrypt (CryptoManager.init [x2a]) [xff; x00] = Ok [xff; x00]
  /\ CryptoManager.decrypt (CryptoManager.init [x2a]) [x10] = Ok [x10].
Proof.
  apply (@pass_through_without_peer_key (CryptoManager.init [x2a]) [xff; x00] [x10]).
  reflexivity.
Defined.

(** C10. After [set_peer_key] with an empty byte sequence, [encrypt] and
    [decrypt] return their input unchanged, exactly as with no peer key
    set.  The statements below the guard would raise [ZeroDivisionError] on
    the empty key, but they are not reached: [encrypt] and [decrypt] never
    raise, whatever the object and the input. *)
Theorem empty_peer_key_is_pass_through (self : CryptoManager.t) (P : bytes) :
  let s := CryptoManager.set_peer_key self [] in
  CryptoManager.encrypt s P = Ok P
  /\ CryptoManager.decrypt s P = Ok P
  /\ CryptoManager.encrypt s P
     = CryptoManager.encrypt (CryptoManager.init (CryptoManager.key self)) P
  /\ CryptoManager.decrypt s P
     = CryptoManager.decrypt (CryptoManager.init (CryptoManager.key self)) P
  /\ (exists msg, CryptoManager.encrypt_masked s P = Raise (ZeroDivisionError msg))
  /\ (forall (self' : CryptoManager.t) (X : bytes),
        (exists out, CryptoManager.encrypt self' X = Ok out)
        /\ (exists out, CryptoManager.decrypt self' X = Ok out)).
Proof.
  cbv zeta. repeat split; try reflexivity.
  - eexists. reflexivity.
  - apply encrypt_total.
  - apply encrypt_total.
Qed.

(** ** The message store *)

Section Store.

Import MessageStore.

Lemma keeps_no_expiry (now : float) (m : message) :
  expiry m = None -> keeps now m = true.
Proof. intros E. unfold keeps. rewrite E. reflexivity. Qed.

Lemma keeps_expiry (now e : float) (m : message) :
  expiry m = Some e -> float_truthy e = true -> keeps now m = float_gt e now.
Proof.
  intros E Ht. unfold keeps. rewrite E. cbn [expiry_truthy]. rewrite Ht.
  reflexivity.
Qed.

Lemma in_cleanup (now : float) (m : message) (s : t) :
  In m (cleanup_expired now s) <-> In m s /\ keeps now m = true.
Proof. apply filter_In. Qed.

Lemma cleanup_app (now : float) (s1 s2 : t) :
  cleanup_expired now (s1 ++ s2) = cleanup_expired now s1 ++ cleanup_expired now s2.
Proof. apply filter_app. Qed.

Lemma run_app (ops1 ops2 : list op) (s : t) :
  run (ops1 ++ ops2) s = run ops2 (run ops1 s).
Proof. apply fold_left_app. Qed.

(** [add] either raises, or appends the entry it has built. *)
Lemma add_returns (c : clock) (who text : string) (ttl : option Z) (s s' : t) :
  add c who text ttl s = Ok s' ->
  exists m : message, entry c who text ttl = Ok m /\ s' = s ++ [m].
Proof.
  unfold add. destruct (entry c who text ttl) as [m | e]; cbn [bind];
    intros H; [| discriminate].
  exists m. split; [reflexivity | congruence].
Qed.

Lemma step_add_keeps (m : message) (c : clock) (who text : string)
    (ttl : option Z) (s : t) :
  In m s -> In m (step s (Add c who text ttl)).
Proof.
  intros Hin. cbn [step].
  destruct (add c who text ttl s) as [s' |] eqn:E; [| exact Hin].
  apply add_returns in E. destruct E as [x [_ ->]].
  apply in_or_app. now left.
Qed.

(** A message that every read of a sequence keeps, and that no call
    deletes, stays in the store and is returned by every read. *)
Lemma kept_through (m : message) (ops : list op) :
  forall s : t,
    In m s ->
    existsb is_delete ops = false ->
    Forall (fun r => keeps r m = true) (read_times ops) ->
    In m (run ops s) /\ Forall (fun r => In m (snd r)) (reads ops s).
Proof.
  induction ops as [| o ops IH]; intros s Hin Hdel Hreads.
  - split; [exact Hin | constructor].
  - destruct o as [c who text ttl | | now]; cbn in Hdel; try discriminate.
    + cbn [read_times] in Hreads.
      apply (IH (step s (Add c who text ttl))); try assumption.
      now apply step_add_keeps.
    + cbn [read_times] in Hreads. inversion Hreads as [| ? ? Hk Hrest]; subst.
      assert (Hin' : In m (cleanup_expired now s)) by now apply in_cleanup.
      destruct (IH (cleanup_expired now s) Hin' Hdel Hrest) as [H1 H2].
      split; [exact H1 |].
      cbn [reads]. constructor; assumption.
Qed.

Lemma float_of_int_fits (z : Z) :
  (Z.abs z < 2 ^ 1024 - 2 ^ 970)%Z -> float_of_int z = Ok (dyadic z 0).
Proof.
  intros H. unfold float_of_int.
  destruct (Z.leb_spec (2 ^ 1024 - 2 ^ 970) (Z.abs z)) as [Hge | _];
    [lia | reflexivity].
Qed.

Lemma float_of_int_overflows (z : Z) :
  (2 ^ 1024 - 2 ^ 970 <= Z.abs z)%Z ->
  float_of_int z = Raise (OverflowError "int too large to convert to float").
Proof.
  intros H. unfold float_of_int.
  destruct (Z.leb_spec (2 ^ 1024 - 2 ^ 970) (Z.abs z)) as [_ | Hlt];
    [reflexivity | lia].
Qed.

Lemma entry_with_ttl (c : clock) (who text : string) (z : Z) :
  z <> 0%Z -> (Z.abs z < 2 ^ 1024 - 2 ^ 970)%Z ->
  entry c who text (Some z)
  = Ok (mk_message who text (Some (float_add (time_time c) (dyadic z 0)))
          (strftime_HM c)).
Proof.
  intros Hz Hfit. unfold entry. cbn [ttl_truthy].
  destruct (Z.eqb_spec z 0); [contradiction |]. cbn [negb].
  rewrite (float_of_int_fits _ Hfit). reflexivity.
Qed.

Lemma entry_overflows (c : clock) (who text : string) (z : Z) :
  (2 ^ 1024 - 2 ^ 970 <= Z.abs z)%Z ->
  entry c who text (Some z)
  = Raise (OverflowError "int too large to convert to float").
Proof.
  intros Hbig. unfold entry. cbn [ttl_truthy].
  assert (Hpos : (0 < 2 ^ 1024 - 2 ^ 970)%Z) by reflexivity.
  destruct (Z.eqb_spec z 0) as [-> | _]; [cbn in Hbig; lia |]. cbn [negb].
  rewrite (float_of_int_overflows _ Hbig). reflexivity.
Qed.

End Store.

(** C1, as the code has it.  For a message added with [ttl = t > 0]:
    when [t] is at or above [2^1024 - 2^970], [add] raises [OverflowError]
    and appends nothing; otherwise it appends the message with the
    expiry [e], the binary64 sum of the clock value and of [t] converted
    to binary64.  When [e] is not zero, then, whatever calls follow: a
    read whose clock value is not strictly below [e] does not return the
    message; a read whose clock value is strictly below [e] returns it,
    as long as the message is still held (no [delete_all] and no earlier
    read at a clock value not below [e] came in between); and a held
    message is visible exactly when its expiry is strictly greater than
    the clock value read by [get_all]. *)
Theorem ttl_expiry (c : clock) (who text : string) (t : Z) (s : MessageStore.t) :
  (0 < t)%Z ->
  ((2 ^ 1024 - 2 ^ 970 <= t)%Z ->
   MessageStore.add c who text (Some t) s
   = Raise (OverflowError "int too large to convert to float"))
  /\ ((t < 2 ^ 1024 - 2 ^ 970)%Z ->
      let e := float_add (time_time c) (dyadic t 0) in
      let m := mk_message who text (Some e) (strftime_HM c) in
      MessageStore.add c who text (Some t) s = Ok (s ++ [m])
      /\ (float_truthy e = true ->
          forall (ops : list MessageStore.op) (now : float),
            let held := MessageStore.run ops (s ++ [m]) in
            (float_gt e now = false ->
             ~ In m (fst (MessageStore.get_all now held)))
            /\ (float_gt e now = true ->
                existsb MessageStore.is_delete ops = false ->
                Forall (fun r => float_gt e r = true)
                  (MessageStore.read_times ops) ->
                In m (fst (MessageStore.get_all now held)))
            /\ (In m held ->
                (In m (fst (MessageStore.get_all now held))
                 <-> float_gt e now = true)))).
Proof.
  intros Ht. split.
  - intros Hbig. unfold MessageStore.add.
    rewrite entry_overflows by (rewrite Z.abs_eq; lia). reflexivity.
  - intros Hfit e m. split.
    { unfold MessageStore.add.
      rewrite entry_with_ttl by (try rewrite Z.abs_eq; lia). reflexivity. }
    intros He ops now held.
    assert (Hkeep : forall r, MessageStore.keeps r m = float_gt e r).
    { intros r. now apply keeps_expiry. }
    cbn [MessageStore.get_all fst]. repeat split.
    + intros Hlate Hin. apply in_cleanup in Hin. destruct Hin as [_ Hk].
      rewrite Hkeep in Hk. congruence.
    + intros Hearly Hdel Hreads. apply in_cleanup.
      split; [| now rewrite Hkeep].
      apply kept_through; try assumption.
      * apply in_or_app. right. now left.
      * eapply Forall_impl; [| exact Hreads]. intros r Hr. now rewrite Hkeep.
    + intros Hin. apply in_cleanup in Hin. destruct Hin as [_ Hk].
      now rewrite Hkeep in Hk.
    + intros Hearly. apply in_cleanup. split; [assumption | now rewrite Hkeep].
Qed.

Lemma ttl_expiry_witness :
  let c := mk_clock (seconds 100) "12:00" in
  ((2 ^ 1024 - 2 ^ 970 <= 5)%Z ->
   MessageStore.add c "You" "hi" (Some 5%Z) []
   = Raise (OverflowError "int too large to convert to float"))
  /\ ((5 < 2 ^ 1024 - 2 ^ 970)%Z ->
      let e := float_add (time_time c) (dyadic 5 0) in
      let m := mk_message "You" "hi" (Some e) (strftime_HM c) in
      MessageStore.add c "You" "hi" (Some 5%Z) [] = Ok ([] ++ [m])
      /\ (float_truthy e = true ->
          forall (ops : list MessageStore.op) (now : float),
            let held := MessageStore.run ops ([] ++ [m]) in
            (float_gt e now = false ->
             ~ In m (fst (MessageStore.get_all now held)))
            /\ (float_gt e now = true ->
                existsb MessageStore.is_delete ops = false ->
                Forall (fun r => float_gt e r = true)
                  (MessageStore.read_times ops) ->
                In m (fst (MessageStore.get_all now held)))
            /\ (In m held ->
                (In m (fst (MessageStore.get_all now held))
                 <-> float_gt e now = true)))).
Proof.
  apply (@ttl_expiry (mk_clock (seconds 100) "12:00") "You" "hi" 5%Z []).
  reflexivity.
Defined.

(** The exact sum of add-time and ttl is not the deadline.  Rounding:
    added at clock 0.5 with ttl [2^53], the message is gone at a read at
    [2^53], before the exact sum.  [delete_all]: added at clock 100 with
    ttl 5 and deleted, it is gone at a read at 101.  A clock that went
    back: after a read at 106 it is gone at a read at 101.  A zero sum:
    added at clock -5 with ttl 5, the expiry is zero and the message is
    still returned at clock 100. *)
Lemma exact_sum_is_not_the_deadline :
  (let c := mk_clock (dyadic 1 (-1)) "12:00" in
   let now := seconds (2 ^ 53) in
   exists m : message,
     MessageStore.add c "You" "hi" (Some (2 ^ 53)%Z) [] = Ok [m]
     /\ (Q_of_float now < Q_of_float (time_time c) + inject_Z (2 ^ 53))%Q
     /\ ~ In m (fst (MessageStore.get_all now [m])))
  /\ (let c := mk_clock (seconds 100) "12:00" in
      let now := seconds 101 in
      exists m : message,
        MessageStore.add c "You" "hi" (Some 5%Z) [] = Ok [m]
        /\ (Q_of_float now < Q_of_float (time_time c) + inject_Z 5)%Q
        /\ ~ In m (fst (MessageStore.get_all now
                          (MessageStore.run [MessageStore.DeleteAll] [m]))))
  /\ (let c := mk_clock (seconds 100) "12:00" in
      let now := seconds 101 in
      exists m : message,
        MessageStore.add c "You" "hi" (Some 5%Z) [] = Ok [m]
        /\ (Q_of_float now < Q_of_float (time_time c) + inject_Z 5)%Q
        /\ ~ In m (fst (MessageStore.get_all now
                          (MessageStore.run
                             [MessageStore.GetAll (seconds 106)] [m]))))
  /\ (let c := mk_clock (seconds (-5)) "12:00" in
      let now := seconds 100 in
      exists m : message,
        MessageStore.add c "You" "hi" (Some 5%Z) [] = Ok [m]
        /\ (Q_of_float (time_time c) + inject_Z 5 <= Q_of_float now)%Q
        /\ In m (fst (MessageStore.get_all now [m]))).
Proof.
  cbv zeta. repeat split; eexists;
    (split; [vm_compute; reflexivity |]);
    (split; [vm_compute; reflexivity || (intros H; discriminate H) |]);
    vm_compute; tauto.
Qed.

(** Added at clock 100 with ttl 5, a message is returned at clock 104.5
    and at no read from clock 105 on. *)
Example five_seconds_to_live :
  let c := mk_clock (seconds 100) "12:00" in
  exists m : message,
    MessageStore.add c "You" "hi" (Some 5%Z) [] = Ok [m]
    /\ expiry m = Some (seconds 105)
    /\ fst (MessageStore.get_all (dyadic 209 (-1)) [m]) = [m]
    /\ fst (MessageStore.get_all (seconds 105) [m]) = []
    /\ fst (MessageStore.get_all (seconds 106)
              (snd (MessageStore.get_all (dyadic 209 (-1)) [m]))) = [].
Proof. eexists. repeat split; vm_compute; reflexivity. Qed.

(** C2. Zero or absent TTL never expires.  A message added with no [ttl]
    or with [ttl = 0] gets no expiry, and it is held by the store and
    returned by every later [get_all], at any clock value and through
    arbitrarily many calls, as long as [delete_all] is not called. *)
Theorem no_ttl_never_expires
    (c : clock) (who text : string) (ttl : option Z) (s : MessageStore.t) :
  ttl = None \/ ttl = Some 0%Z ->
  let m := mk_message who text None (strftime_HM c) in
  MessageStore.entry c who text ttl = Ok m
  /\ MessageStore.add c who text ttl s = Ok (s ++ [m])
  /\ forall ops : list MessageStore.op,
       existsb MessageStore.is_delete ops = false ->
       In m (MessageStore.run ops (s ++ [m]))
       /\ Forall (fun r => In m (snd r)) (MessageStore.reads ops (s ++ [m])).
Proof.
  intros Httl m.
  assert (He : MessageStore.entry c who text ttl = Ok m).
  { destruct Httl as [-> | ->]; reflexivity. }
  split; [exact He |]. split.
  { unfold MessageStore.add. now rewrite He. }
  intros ops Hdel. apply kept_through.
  - apply in_or_app. right. now left.
  - exact Hdel.
  - apply Forall_forall. intros r _. now apply keeps_no_expiry.
Qed.

Lemma no_ttl_never_expires_witness :
  let c := mk_clock (seconds 100) "12:00" in
  let m := mk_message "You" "hi" None "12:00" in
  MessageStore.entry c "You" "hi" (Some 0%Z) = Ok m
  /\ MessageStore.add c "You" "hi" (Some 0%Z) [] = Ok ([] ++ [m])
  /\ forall ops : list MessageStore.op,
       existsb MessageStore.is_delete ops = false ->
       In m (MessageStore.run ops ([] ++ [m]))
       /\ Forall (fun r => In m (snd r)) (MessageStore.reads ops ([] ++ [m])).
Proof.
  apply (@no_ttl_never_expires (mk_clock (seconds 100) "12:00") "You" "hi"
           (Some 0%Z) []).
  right. reflexivity.
Defined.

(** C8. Clear is total.  Whatever the store holds, [delete_all] leaves it
    empty, and a [get_all] that follows before any [add] returns the empty
    sequence and leaves the store empty. *)
Theorem clear_is_total (s : MessageStore.t) (now : float) :
  MessageStore.delete_all s = []
  /\ MessageStore.get_all now (MessageStore.delete_all s) = ([], [])
  /\ forall ops : list MessageStore.op,
       fst (MessageStore.get_all now
              (MessageStore.run (ops ++ [MessageStore.DeleteAll]) s)) = [].
Proof.
  split; [reflexivity |]. split; [reflexivity |].
  intros ops. rewrite run_app. reflexivity.
Qed.

(** *** Insertion order *)

Section InsertionOrder.

Import MessageStore.

Lemma added_app (ops1 ops2 : list op) :
  added (ops1 ++ ops2) = added ops1 ++ added ops2.
Proof.
  induction ops1 as [| [c who text ttl | | now] ops1 IH]; simpl;
    rewrite ?IH; try reflexivity.
  destruct (entry c who text ttl); reflexivity.
Qed.

Lemma reads_app (ops1 ops2 : list op) :
  forall s : t, reads (ops1 ++ ops2) s = reads ops1 s ++ reads ops2 (run ops1 s).
Proof.
  induction ops1 as [| [c who text ttl | | now] ops1 IH]; intros s; simpl;
    rewrite ?IH; reflexivity.
Qed.

Lemma sorted_snoc (idx : list nat) (n : nat) :
  StronglySorted lt idx -> Forall (fun i => i < n) idx ->
  StronglySorted lt (idx ++ [n]).
Proof.
  induction 1 as [| i idx Hs IH Hall]; intros Hlt; simpl.
  - repeat constructor.
  - inversion Hlt as [| ? ? Hi Hrest]; subst.
    constructor; [now apply IH |].
    apply Forall_app. split; [exact Hall | now constructor].
Qed.

Lemma in_added_order_nil (hist : list message) : in_added_order hist [].
Proof. exists []. split; constructor. Qed.

Lemma filter_positions (f : message -> bool) (hist : list message)
    (idx : list nat) (l : list message) :
  Forall2 (fun i m => nth_error hist i = Some m) idx l ->
  StronglySorted lt idx ->
  exists idx' : list nat,
    StronglySorted lt idx'
    /\ Forall2 (fun i m => nth_error hist i = Some m) idx' (filter f l)
    /\ incl idx' idx.
Proof.
  induction 1 as [| i m idx l Him Hf IH]; intros Hs.
  - exists []. repeat split; try constructor. apply incl_refl.
  - inversion Hs as [| ? ? Hs' Hall]; subst.
    destruct (IH Hs') as [idx' [Hs'' [Hf'' Hincl]]].
    simpl. destruct (f m).
    + exists (i :: idx'). repeat split.
      * constructor; [exact Hs'' |].
        apply Forall_forall. intros j Hj.
        rewrite Forall_forall in Hall. apply Hall, Hincl, Hj.
      * now constructor.
      * intros j [-> | Hj]; [now left | right; now apply Hincl].
    + exists idx'. repeat split; try assumption.
      now apply incl_tl.
Qed.

Lemma in_added_order_filter (f : message -> bool) (hist l : list message) :
  in_added_order hist l -> in_added_order hist (filter f l).
Proof.
  intros [idx [Hs Hf]].
  destruct (@filter_positions f _ _ _ Hf Hs) as [idx' [Hs' [Hf' _]]].
  exists idx'. now split.
Qed.

Lemma in_added_order_weaken (hist more l : list message) :
  in_added_order hist l -> in_added_order (hist ++ more) l.
Proof.
  intros [idx [Hs Hf]]. exists idx. split; [exact Hs |].
  eapply Forall2_impl; [| exact Hf].
  intros i m Him. cbv beta in *.
  rewrite nth_error_app1; [exact Him |].
  apply nth_error_Some. congruence.
Qed.

Lemma in_added_order_snoc (hist l : list message) (m : message) :
  in_added_order hist l -> in_added_order (hist ++ [m]) (l ++ [m]).
Proof.
  intros [idx [Hs Hf]]. exists (idx ++ [List.length hist]). split.
  - apply sorted_snoc; [exact Hs |].
    clear Hs. induction Hf as [| i x idx l Hi Hf IH]; constructor.
    + apply nth_error_Some. congruence.
    + exact IH.
  - apply Forall2_app.
    + eapply Forall2_impl; [| exact Hf].
      intros i x Hi. cbv beta in *.
      rewrite nth_error_app1; [exact Hi |].
      apply nth_error_Some. congruence.
    + constructor; [| constructor].
      rewrite nth_error_app2 by apply Nat.le_refl.
      rewrite Nat.sub_diag. reflexivity.
Qed.

(** One call keeps the store in the order of the history, which an
    [add] extends at its end. *)
Lemma step_in_added_order (hist : list message) (s : t) (o : op) :
  in_added_order hist s ->
  in_added_order (hist ++ added [o]) (step s o).
Proof.
  intros H. destruct o as [c who text ttl | | now]; simpl.
  - unfold add. destruct (entry c who text ttl) as [m | e]; cbn [bind].
    + now apply in_added_order_snoc.
    + now rewrite app_nil_r.
  - apply in_added_order_nil.
  - apply in_added_order_weaken. now apply in_added_order_filter.
Qed.

End InsertionOrder.

(** C9. Insertion order preserved.  After every sequence of [add],
    [delete_all] and [get_all] calls on a store created empty, the store,
    and the value returned by every [get_all] of the sequence, list
    messages of the add history at strictly increasing positions: the
    surviving messages come in the relative order in which they were
    added. *)
Theorem insertion_order_preserved (ops : list MessageStore.op) :
  in_added_order (MessageStore.added ops) (MessageStore.run ops MessageStore.init)
  /\ Forall (fun r => in_added_order (MessageStore.added ops) (snd r))
       (MessageStore.reads ops MessageStore.init).
Proof.
  induction ops as [| o ops [IHs IHr]] using rev_ind.
  - split; [apply in_added_order_nil | constructor].
  - rewrite added_app, run_app, reads_app. split.
    + cbn [MessageStore.run fold_left]. now apply step_in_added_order.
    + apply Forall_app. split.
      * eapply Forall_impl; [| exact IHr].
        intros r Hr. now apply in_added_order_weaken.
      * destruct o as [c who text ttl | | now]; cbn [MessageStore.reads];
          try constructor; [| constructor].
        cbn [MessageStore.get_all fst snd].
        apply in_added_order_weaken. now apply in_added_order_filter.
Qed.

(** ** The connect handler *)

Section Connect.

Lemma cleanup_keeps_notice (now : float) (s : MessageStore.t) (m : message) :
  expiry m = None ->
  MessageStore.cleanup_expired now (s ++ [m])
  = MessageStore.cleanup_expired now s ++ [m].
Proof.
  intros E. rewrite cleanup_app. f_equal.
  unfold MessageStore.cleanup_expired. simpl.
  now rewrite (keeps_no_expiry now m E).
Qed.

Lemma list_ascii_of_string_app (s1 s2 : string) :
  list_ascii_of_string (s1 ++ s2)%string
  = list_ascii_of_string s1 ++ list_ascii_of_string s2.
Proof. induction s1 as [| ch s1 IH]; simpl; [reflexivity | now rewrite IH]. Qed.

Lemma list_ascii_of_string_length (s : string) :
  List.length (list_ascii_of_string s) = String.length s.
Proof. induction s as [| ch s IH]; simpl; [reflexivity | now rewrite IH]. Qed.

Lemma str_repeat_length (fill : ascii) (n : nat) :
  String.length (str_repeat fill n) = n.
Proof. induction n as [| n IH]; simpl; [reflexivity | now rewrite IH]. Qed.

Lemma str_repeat_chars (fill : ascii) (n : nat) :
  list_ascii_of_string (str_repeat fill n) = repeat fill n.
Proof. induction n as [| n IH]; simpl; [reflexivity | now rewrite IH]. Qed.

Lemma string_app_length (s1 s2 : string) :
  String.length (s1 ++ s2)%string = String.length s1 + String.length s2.
Proof. induction s1 as [| ch s1 IH]; simpl; [reflexivity | now rewrite IH]. Qed.

Lemma ljust_length (s : string) (width : nat) (fill : ascii) :
  String.length s <= width -> String.length (ljust s width fill) = width.
Proof.
  intros Hle. unfold ljust.
  destruct (Nat.leb_spec width (String.length s)) as [Hge | Hlt].
  - lia.
  - rewrite string_app_length, str_repeat_length. lia.
Qed.

Lemma ljust_no_space (s : string) (width : nat) :
  no_space (list_ascii_of_string s) = true ->
  no_space (list_ascii_of_string (ljust s width "0")) = true.
Proof.
  intros H. unfold ljust.
  destruct (width <=? String.length s); [exact H |].
  rewrite list_ascii_of_string_app, str_repeat_chars.
  unfold no_space. rewrite forallb_app. apply andb_true_intro. split; [exact H |].
  apply forallb_forall. intros ch Hch. apply repeat_spec in Hch. now subst.
Qed.

(** Without white space, the decoding loop consumes two characters per
    byte. *)
Lemma fromhex_loop_length (n : nat) :
  forall (s : list ascii) (pos : nat) (out : bytes),
    List.length s <= n ->
    no_space s = true ->
    fromhex_loop s pos = Ok out ->
    List.length s = 2 * List.length out.
Proof.
  induction n as [| n IH]; intros s pos out Hlen Hns Hok.
  - destruct s; simpl in *; [| lia]. now inversion Hok.
  - destruct s as [| ch [| d s2]]; simpl in Hok.
    + now inversion Hok.
    + simpl in Hns. destruct (Py_ISSPACE ch); [discriminate |].
      destruct (16 <=? PyLong_DigitValue ch)%N; discriminate.
    + simpl in Hns. destruct (Py_ISSPACE ch); [discriminate |].
      destruct (16 <=? PyLong_DigitValue ch)%N; [discriminate |].
      destruct (16 <=? PyLong_DigitValue d)%N; [discriminate |].
      destruct (Py_ISSPACE d) eqn:Hd; [discriminate |]. simpl in Hns.
      destruct (fromhex_loop s2 (S (S pos))) as [rest | e] eqn:Hrest;
        simpl in Hok; [| discriminate].
      inversion Hok; subst. simpl in Hlen.
      specialize (IH s2 (S (S pos)) rest). simpl.
      rewrite IH; [lia | lia | exact Hns | exact Hrest].
Qed.

Lemma fromhex_length (s : string) (out : bytes) :
  no_space (list_ascii_of_string s) = true ->
  bytes_fromhex s = Ok out ->
  String.length s = 2 * List.length out.
Proof.
  intros Hns Hok. unfold bytes_fromhex in Hok.
  destruct (first_non_ascii (list_ascii_of_string s) 0); [discriminate |].
  rewrite <- list_ascii_of_string_length.
  now apply (fromhex_loop_length (n := List.length (list_ascii_of_string s)))
    with (pos := 0).
Qed.

End Connect.






(** White space between bytes is skipped by the decoder: an identifier of
    eight characters with two spaces connects with a key of 31 bytes. *)
Example spaced_identifier_gives_31_byte_key :
  option_map (@List.length byte)
    (CryptoManager.peer_key
       (crypto (snd (connect_to_peer (mk_clock (seconds 100) "12:00") "a1 b2 c3"
                       (App_init [x2a])))))
  = Some 31.
Proof. reflexivity. Qed.

(** An expiry of exactly zero is falsy for [cleanup_expired], which keeps
    such a message at every clock value; [add] produces it only when the
    clock reads minus the ttl. *)
Remark zero_expiry_is_kept (now : float) (s : bool) (who text hm : string) :
  MessageStore.keeps now (mk_message who text (Some (S754_zero s)) hm) = true.
Proof. reflexivity. Qed.


(** * Further properties of the code *)

(** ** Reads of the store compose *)

Section Reads.

Import MessageStore.

(** The comparison of floats is a total preorder on the numbers. *)
Ltac compare_cases :=
  repeat match goal with
    | H : context [Z.compare ?x ?y] |- _ =>
        destruct (Z.compare_spec x y); subst
    | |- context [Z.compare ?x ?y] =>
        destruct (Z.compare_spec x y); subst
    | H : context [Pos.compare_cont Eq ?x ?y] |- _ =>
        change (Pos.compare_cont Eq x y) with (Pos.compare x y) in *;
        destruct (Pos.compare_spec x y); subst
    | |- context [Pos.compare_cont Eq ?x ?y] =>
        change (Pos.compare_cont Eq x y) with (Pos.compare x y) in *;
        destruct (Pos.compare_spec x y); subst
    end;
  cbn in *; try discriminate; try reflexivity; try lia.

Lemma float_le_lt_trans (a b e : float) :
  SFleb a b = true -> SFltb b e = true -> SFltb a e = true.
Proof.
  unfold SFleb, SFltb, SFcompare.
  destruct a as [sa | sa | | sa ma ea], b as [sb | sb | | sb mb eb],
    e as [se | se | | se me ee];
    try destruct sa; try destruct sb; try destruct se;
    cbn; try discriminate; try reflexivity; intros H1 H2; compare_cases.
Qed.

Lemma float_incomparable (a b : float) :
  SFleb a b = false -> SFleb b a = false -> a = S754_nan \/ b = S754_nan.
Proof.
  unfold SFleb, SFcompare.
  destruct a as [sa | sa | | sa ma ea], b as [sb | sb | | sb mb eb];
    try destruct sa; try destruct sb;
    cbn; try discriminate; auto; intros H1 H2; compare_cases.
Qed.

Lemma float_gt_later (a b e : float) :
  float_gt e (later a b) = float_gt e a && float_gt e b.
Proof.
  unfold float_gt, later.
  destruct (SFleb a b) eqn:Hab; [| destruct (SFleb b a) eqn:Hba].
  - destruct (SFltb b e) eqn:Hb.
    + now rewrite (float_le_lt_trans _ _ _ Hab Hb).
    + now rewrite andb_false_r.
  - destruct (SFltb a e) eqn:Ha.
    + now rewrite (float_le_lt_trans _ _ _ Hba Ha).
    + reflexivity.
  - destruct (float_incomparable _ _ Hab Hba) as [-> | ->].
    + reflexivity.
    + now rewrite andb_false_r.
Qed.

Lemma later_same (a : float) : later a a = a.
Proof.
  unfold later. destruct (SFleb a a) eqn:E; [reflexivity |].
  now destruct (float_incomparable _ _ E E) as [-> | ->].
Qed.

Lemma keeps_later (a b : float) (m : message) :
  keeps (later a b) m = keeps a m && keeps b m.
Proof.
  unfold keeps. destruct (expiry m) as [e |]; [| reflexivity].
  cbn [expiry_truthy]. destruct (float_truthy e); cbn [negb orb]; [| reflexivity].
  apply float_gt_later.
Qed.

Lemma cleanup_twice (a b : float) (s : t) :
  cleanup_expired b (cleanup_expired a s) = cleanup_expired (later a b) s.
Proof.
  unfold cleanup_expired. induction s as [| m s IH]; [reflexivity |].
  simpl. rewrite keeps_later. destruct (keeps a m); simpl.
  - rewrite IH. reflexivity.
  - exact IH.
Qed.

End Reads.

(** X1. Two reads compose into one: a [get_all] at clock value [b] after
    a [get_all] at clock value [a] returns, and leaves in the store, what
    a single [get_all] at the later of the two values does.  So a read
    repeated at the same instant changes nothing, and what a clock that
    went back shows is what the latest clock value seen has left. *)
Theorem get_all_twice (a b : float) (s : MessageStore.t) :
  MessageStore.get_all b (snd (MessageStore.get_all a s))
  = MessageStore.get_all (later a b) s
  /\ MessageStore.get_all a (snd (MessageStore.get_all a s))
     = MessageStore.get_all a s.
Proof.
  unfold MessageStore.get_all. cbn [snd]. rewrite !cleanup_twice. split; [reflexivity |].
  now rewrite later_same.
Qed.

(** ** Masking with any key, and with two keys *)

Section MaskingKeys.

Import CryptoManager.

Lemma bxor_cancel (p x y : byte) : bxor (bxor p x) y = p <-> x = y.
Proof.
  split.
  - intros H. apply to_N_inj. apply N.lxor_eq.
    apply (f_equal Byte.to_N) in H. rewrite !to_N_bxor in H.
    rewrite N.lxor_assoc in H.
    apply (f_equal (N.lxor (Byte.to_N p))) in H.
    rewrite <- N.lxor_assoc, N.lxor_nilpotent, N.lxor_0_l in H.
    exact H.
  - intros <-. apply bxor_involutive.
Qed.

Lemma mask_cancel (text ks1 ks2 : bytes) :
  List.length ks1 = List.length text ->
  List.length ks2 = List.length text ->
  (mask (mask text ks1) ks2 = text <-> ks1 = ks2).
Proof.
  revert ks1 ks2; induction text as [| p text IH]; intros [| x ks1] [| y ks2] E1 E2;
    simpl in *; try discriminate.
  - split; reflexivity.
  - unfold mask in *; simpl. split.
    + intros H. injection H as Hb Hrest.
      apply bxor_cancel in Hb.
      assert (Hks : ks1 = ks2).
      { apply (IH ks1 ks2); [lia | lia | exact Hrest]. }
      congruence.
    + intros H. injection H as -> ->. f_equal.
      * apply bxor_involutive.
      * apply (IH ks2 ks2); [lia | lia | reflexivity].
Qed.

Lemma keystream_eq (K1 K2 : bytes) (n : nat) :
  K1 <> [] -> K2 <> [] ->
  (keystream K1 n = keystream K2 n
   <-> forall i, i < n ->
         nth_error K1 (i mod List.length K1) = nth_error K2 (i mod List.length K2)).
Proof.
  intros H1 H2. split.
  - intros E i Hi. rewrite <- !keystream_nth with (n := n) by assumption.
    now rewrite E.
  - intros H. apply nth_error_ext. intros i.
    destruct (Nat.lt_ge_cases i n) as [Hi | Hi].
    + rewrite !keystream_nth by assumption. now apply H.
    + transitivity (@None byte).
      * apply nth_error_None. now rewrite keystream_length.
      * symmetry. apply nth_error_None. now rewrite keystream_length.
Qed.

End MaskingKeys.

(** X2. [encrypt] undoes itself in every state of the object, with a peer
    key, without one and with an empty one: it never raises, its result
    has the length of its argument, and applying it to its result gives
    the argument back. *)
Theorem encrypt_is_an_involution (self : CryptoManager.t) (P : bytes) :
  exists C : bytes,
    CryptoManager.encrypt self P = Ok C
    /\ List.length C = List.length P
    /\ CryptoManager.encrypt self C = Ok P.
Proof.
  destruct (CryptoManager.peer_key self) as [[| k0 K] |] eqn:Hk.
  - exists P. repeat split; try apply encrypt_unkeyed; now rewrite Hk.
  - assert (Hne : k0 :: K <> []) by discriminate.
    exists (mask P (keystream (k0 :: K) (List.length P))).
    assert (Hlen : List.length (mask P (keystream (k0 :: K) (List.length P)))
                   = List.length P).
    { apply mask_length. now apply keystream_length. }
    split; [now apply encrypt_keyed |]. split; [exact Hlen |].
    rewrite (encrypt_keyed self _ Hk Hne), Hlen. f_equal.
    apply mask_involutive. now apply keystream_length.
  - exists P. repeat split; try apply encrypt_unkeyed; now rewrite Hk.
Qed.

(** X3. A text encrypted under one non-empty peer key and decrypted under
    another comes back unchanged exactly when the two keys, each repeated
    cyclically, agree at every index below the length of the text. *)
Theorem decrypt_needs_the_same_key_stream
    (sender_side receiver_side : CryptoManager.t) (K1 K2 P : bytes) :
  CryptoManager.peer_key sender_side = Some K1 -> K1 <> [] ->
  CryptoManager.peer_key receiver_side = Some K2 -> K2 <> [] ->
  ((C <- CryptoManager.encrypt sender_side P ;;
    CryptoManager.decrypt receiver_side C) = Ok P
   <-> forall i : nat,
         i < List.length P ->
         nth_error K1 (i mod List.length K1) = nth_error K2 (i mod List.length K2)).
Proof.
  intros Hk1 Hne1 Hk2 Hne2.
  rewrite (encrypt_keyed sender_side P Hk1 Hne1). cbn [bind].
  unfold CryptoManager.decrypt. rewrite (encrypt_keyed receiver_side _ Hk2 Hne2).
  rewrite mask_length by now apply keystream_length.
  rewrite <- keystream_eq by assumption.
  rewrite <- (@mask_cancel P (keystream K1 (List.length P)) (keystream K2 (List.length P)))
    by now apply keystream_length.
  split; [intros H; now injection H | intros ->; reflexivity].
Qed.

Lemma decrypt_needs_the_same_key_stream_witness :
  let a := CryptoManager.mk [x2a] (Some [x01; x02]) in
  let b := CryptoManager.mk [x2b] (Some [x01; x03]) in
  (C <- CryptoManager.encrypt a [xff] ;; CryptoManager.decrypt b C) = Ok [xff]
  <-> forall i : nat,
        i < 1 -> nth_error [x01; x02] (i mod 2) = nth_error [x01; x03] (i mod 2).
Proof.
  apply (@decrypt_needs_the_same_key_stream
           (CryptoManager.mk [x2a] (Some [x01; x02]))
           (CryptoManager.mk [x2b] (Some [x01; x03]))
           [x01; x02] [x01; x03] [xff]).
  - reflexivity.
  - discriminate.
  - reflexivity.
  - discriminate.
Defined.

(** ** Identifiers: [bytes.hex], [bytes.fromhex] and the peer key *)

Section Identifiers.

Lemma hex_pair_decodes (x : byte) :
  let hi := hex_digit (N.shiftr (Byte.to_N x) 4) in
  let lo := hex_digit (N.land (Byte.to_N x) 15) in
  Py_ISSPACE hi = false
  /\ (16 <=? PyLong_DigitValue hi)%N = false
  /\ (16 <=? PyLong_DigitValue lo)%N = false
  /\ (128 <=? N_of_ascii hi)%N = false
  /\ (128 <=? N_of_ascii lo)%N = false
  /\ byte_of_nibbles (PyLong_DigitValue hi) (PyLong_DigitValue lo) = x.
Proof. destruct x; vm_compute; repeat split. Qed.

Lemma fromhex_loop_hex (b : bytes) :
  forall pos : nat, fromhex_loop (list_ascii_of_string (bytes_hex b)) pos = Ok b.
Proof.
  induction b as [| x b IH]; intros pos; [reflexivity |].
  destruct (hex_pair_decodes x) as [Hs [Hh [Hl [_ [_ Hb]]]]].
  cbn [bytes_hex list_ascii_of_string fromhex_loop].
  rewrite Hs, Hh, Hl, IH. cbn [bind]. now rewrite Hb.
Qed.

Lemma first_non_ascii_hex (b : bytes) :
  forall pos : nat, first_non_ascii (list_ascii_of_string (bytes_hex b)) pos = None.
Proof.
  induction b as [| x b IH]; intros pos; [reflexivity |].
  destruct (hex_pair_decodes x) as [_ [_ [_ [Hh [Hl _]]]]].
  cbn [bytes_hex list_ascii_of_string first_non_ascii].
  now rewrite Hh, Hl, IH.
Qed.





(** What [connect_to_peer] leaves when the identifier decodes. *)
Lemma connect_decoded (c : clock) (pid : string) (a : App) (key : bytes) :
  bytes_fromhex (ljust pid 64 "0") = Ok key ->
  fst (connect_to_peer c pid a) = Ok tt
  /\ crypto (snd (connect_to_peer c pid a))
     = CryptoManager.set_peer_key (crypto a) key
  /\ is_connected (snd (connect_to_peer c pid a)) = true
  /\ peer_id (snd (connect_to_peer c pid a)) = Some pid
  /\ chat_list (snd (connect_to_peer c pid a))
     = store (snd (connect_to_peer c pid a))
  /\ store (snd (connect_to_peer c pid a))
     = MessageStore.cleanup_expired (time_time c) (store a)
       ++ [mk_message "System"
             ("Connected to peer " ++ str_prefix 8 pid ++ "...")%string None
             (strftime_HM c)].
Proof.
  intros Hok. unfold connect_to_peer, mtry, mbind, lift. rewrite Hok.
  unfold store_add, refresh_chat, mbind, assign. cbn.
  repeat split.
  unfold MessageStore.add, MessageStore.entry. cbn.
  now apply cleanup_keeps_notice.
Qed.

(** What [connect_to_peer] leaves when the identifier does not decode. *)
Lemma connect_refused (c : clock) (pid : string) (a : App) (e : exn) :
  bytes_fromhex (ljust pid 64 "0") = Raise e ->
  fst (connect_to_peer c pid a) = Ok tt
  /\ crypto (snd (connect_to_peer c pid a)) = crypto a
  /\ is_connected (snd (connect_to_peer c pid a)) = is_connected a
  /\ peer_id (snd (connect_to_peer c pid a)) = peer_id a
  /\ chat_list (snd (connect_to_peer c pid a))
     = store (snd (connect_to_peer c pid a))
  /\ store (snd (connect_to_peer c pid a))
     = MessageStore.cleanup_expired (time_time c) (store a)
       ++ [mk_message "System" ("Connection failed: " ++ exn_str e)%string None
             (strftime_HM c)].
Proof.
  intros Hfail. unfold connect_to_peer, mtry, mbind, lift. rewrite Hfail.
  unfold store_add, refresh_chat, mbind, assign. cbn.
  repeat split.
  unfold MessageStore.add, MessageStore.entry. cbn.
  now apply cleanup_keeps_notice.
Qed.

End Identifiers.

(** Decoding with [bytes.fromhex] what [bytes.hex] printed gives the
    bytes back. *)
Lemma fromhex_of_hex (b : bytes) : bytes_fromhex (bytes_hex b) = Ok b.
Proof.
  unfold bytes_fromhex. rewrite first_non_ascii_hex. apply fromhex_loop_hex.
Qed.



(** ** The padding of a short identifier *)

Section Padding.

(** Without white space, byte [j] of the decoded text comes from the
    characters [2j] and [2j+1]. *)
Lemma fromhex_loop_nth (n : nat) :
  forall (s : list ascii) (pos : nat) (out : bytes),
    List.length s <= n ->
    no_space s = true ->
    fromhex_loop s pos = Ok out ->
    forall (j : nat) (ch d : ascii),
      nth_error s (2 * j) = Some ch ->
      nth_error s (2 * j + 1) = Some d ->
      nth_error out j
      = Some (byte_of_nibbles (PyLong_DigitValue ch) (PyLong_DigitValue d)).
Proof.
  induction n as [| n IH]; intros s pos out Hlen Hns Hok j ch d Hc Hd.
  - destruct s; simpl in *; [| lia]. destruct j; discriminate.
  - destruct s as [| c0 [| d0 s2]].
    + destruct j; discriminate.
    + assert (Hb : 2 * j + 1 < List.length [c0]).
      { apply nth_error_Some. congruence. }
      simpl in Hb. lia.
    + simpl in Hok, Hns.
      destruct (Py_ISSPACE c0); [discriminate |].
      destruct (16 <=? PyLong_DigitValue c0)%N; [discriminate |].
      destruct (16 <=? PyLong_DigitValue d0)%N; [discriminate |].
      destruct (Py_ISSPACE d0); [discriminate |]. simpl in Hns.
      destruct (fromhex_loop s2 (S (S pos))) as [rest | e] eqn:Hrest;
        simpl in Hok; [| discriminate].
      inversion Hok; subst out. simpl in Hlen.
      destruct j as [| j].
      * simpl in Hc, Hd. inversion Hc; inversion Hd; subst. reflexivity.
      * replace (2 * S j) with (S (S (2 * j))) in Hc by lia.
        replace (2 * S j + 1) with (S (S (2 * j + 1))) in Hd by lia.
        simpl in Hc, Hd. simpl.
        apply (IH s2 (S (S pos)) rest); try assumption. lia.
Qed.

Lemma ljust_chars (s : string) (width : nat) (fill : ascii) :
  String.length s <= width ->
  list_ascii_of_string (ljust s width fill)
  = list_ascii_of_string s ++ repeat fill (width - String.length s).
Proof.
  intros Hle. unfold ljust.
  destruct (Nat.leb_spec width (String.length s)) as [Hge | Hlt].
  - replace (width - String.length s) with 0 by lia. simpl. now rewrite app_nil_r.
  - now rewrite list_ascii_of_string_app, str_repeat_chars.
Qed.

Lemma ljust_padding_nth (s : string) (width i : nat) (fill : ascii) :
  String.length s <= i -> i < width ->
  nth_error (list_ascii_of_string (ljust s width fill)) i = Some fill.
Proof.
  intros Hlo Hhi. rewrite ljust_chars by lia.
  rewrite nth_error_app2 by (rewrite list_ascii_of_string_length; exact Hlo).
  rewrite list_ascii_of_string_length.
  rewrite nth_error_repeat by lia. reflexivity.
Qed.

Lemma bxor_zero (p : byte) : bxor p x00 = p.
Proof.
  apply to_N_inj. rewrite to_N_bxor. change (Byte.to_N x00) with 0%N.
  apply N.lxor_0_r.
Qed.

(** The bytes of the key that come from the padding are zero. *)
Lemma padded_key_zero (pid : string) (key : bytes) (j : nat) :
  bytes_fromhex (ljust pid 64 "0") = Ok key ->
  String.length pid <= 64 ->
  no_space (list_ascii_of_string pid) = true ->
  (String.length pid + 1) / 2 <= j -> j < 32 ->
  nth_error key j = Some x00.
Proof.
  intros Hok Hlen Hns Hlo Hhi.
  assert (H2j : String.length pid <= 2 * j).
  { pose proof (Nat.div_mod_eq (String.length pid + 1) 2) as Hdm.
    pose proof (Nat.mod_upper_bound (String.length pid + 1) 2) as Hm. lia. }
  unfold bytes_fromhex in Hok.
  destruct (first_non_ascii (list_ascii_of_string (ljust pid 64 "0")) 0);
    [discriminate |].
  change x00 with (byte_of_nibbles (PyLong_DigitValue "0") (PyLong_DigitValue "0")).
  apply (@fromhex_loop_nth
           (List.length (list_ascii_of_string (ljust pid 64 "0")))
           (list_ascii_of_string (ljust pid 64 "0")) 0 key).
  - apply Nat.le_refl.
  - now apply ljust_no_space.
  - exact Hok.
  - apply ljust_padding_nth; lia.
  - apply ljust_padding_nth; lia.
Qed.

End Padding.

(** X5. The padding is sent in clear.  After a connect with an
    identifier of [L <= 64] characters without white space, [encrypt]
    returns every byte of the text whose index [i] has
    [i mod 32 >= (L + 1) / 2] unchanged: with the 16 characters a node
    displays, 24 bytes of every 32. *)
Theorem padding_leaves_text_unchanged
    (c : clock) (pid : string) (a : App) (key P : bytes) :
  bytes_fromhex (ljust pid 64 "0") = Ok key ->
  String.length pid <= 64 ->
  no_space (list_ascii_of_string pid) = true ->
  exists C : bytes,
    CryptoManager.encrypt (crypto (snd (connect_to_peer c pid a))) P = Ok C
    /\ forall i : nat,
         (String.length pid + 1) / 2 <= i mod 32 ->
         nth_error C i = nth_error P i.
Proof.
  intros Hok Hlen Hns.
  destruct (connect_decoded c pid a Hok) as [_ [Hcr _]].
  assert (H32 : List.length key = 32).
  { pose proof (@fromhex_length _ _ (@ljust_no_space pid 64 Hns) Hok) as H2.
    rewrite ljust_length in H2 by exact Hlen. lia. }
  assert (Hne : key <> []) by (intros ->; discriminate).
  exists (mask P (keystream key (List.length P))).
  split.
  { apply encrypt_keyed; [| exact Hne]. rewrite Hcr. reflexivity. }
  intros i Hi.
  destruct (nth_error P i) as [p |] eqn:Hp.
  - assert (Hip : i < List.length P) by (apply nth_error_Some; congruence).
    rewrite (@mask_nth P (keystream key (List.length P)) i p x00 Hp).
    + now rewrite bxor_zero.
    + rewrite keystream_nth by assumption. rewrite H32.
      apply (padded_key_zero pid Hok Hlen Hns Hi).
      apply Nat.mod_upper_bound. discriminate.
  - apply nth_error_None. apply nth_error_None in Hp.
    rewrite mask_length; [exact Hp | now apply keystream_length].
Qed.

Lemma padding_leaves_text_unchanged_witness :
  let pid := "a1b2c3d4e5f60718" in
  let a := App_init (repeat x17 32) in
  let P := repeat xff 40 in
  exists C : bytes,
    CryptoManager.encrypt
      (crypto (snd (connect_to_peer (mk_clock (seconds 100) "12:00") pid a))) P = Ok C
    /\ forall i : nat,
         (String.length pid + 1) / 2 <= i mod 32 ->
         nth_error C i = nth_error P i.
Proof.
  apply (@padding_leaves_text_unchanged (mk_clock (seconds 100) "12:00")
           "a1b2c3d4e5f60718" (App_init (repeat x17 32))
           ([xa1; xb2; xc3; xd4; xe5; xf6; x07; x18] ++ repeat x00 24)
           (repeat xff 40)).
  - reflexivity.
  - cbn. lia.
  - reflexivity.
Defined.

(** ** The handlers of the page *)

Section Handlers.

Lemma lstrip_blank (s : list ascii) :
  forallb Py_UNICODE_ISSPACE s = true -> lstrip s = [].
Proof.
  induction s as [| ch s IH]; simpl; [reflexivity |].
  destruct (Py_UNICODE_ISSPACE ch); [exact IH | discriminate].
Qed.

Lemma str_strip_blank (s : string) :
  forallb Py_UNICODE_ISSPACE (list_ascii_of_string s) = true ->
  str_strip s = EmptyString.
Proof. intros H. unfold str_strip. now rewrite (lstrip_blank _ H). Qed.

Lemma lstrip_head (s : list ascii) (ch : ascii) (r : list ascii) :
  lstrip s = ch :: r -> Py_UNICODE_ISSPACE ch = false.
Proof.
  induction s as [| c0 s IH]; simpl; [discriminate |].
  destruct (Py_UNICODE_ISSPACE c0) eqn:E; [exact IH |].
  intros H. inversion H; subst. exact E.
Qed.

Lemma lstrip_nil (s : list ascii) :
  lstrip s = [] -> forallb Py_UNICODE_ISSPACE s = true.
Proof.
  induction s as [| c0 s IH]; simpl; [reflexivity |].
  destruct (Py_UNICODE_ISSPACE c0); [exact IH | discriminate].
Qed.

Lemma str_strip_empty (s : string) :
  str_strip s = EmptyString ->
  forallb Py_UNICODE_ISSPACE (list_ascii_of_string s) = true.
Proof.
  unfold str_strip, rstrip. intros H.
  apply (f_equal list_ascii_of_string) in H.
  rewrite list_ascii_of_string_of_list_ascii in H. simpl in H.
  apply (f_equal (@rev ascii)) in H. rewrite rev_involutive in H. simpl in H.
  apply lstrip_nil in H.
  destruct (lstrip (list_ascii_of_string s)) as [| ch r] eqn:E.
  - now apply lstrip_nil.
  - apply lstrip_head in E. rewrite forallb_forall in H.
    rewrite (H ch) in E; [discriminate |].
    apply in_rev. rewrite rev_involutive. now left.
Qed.

Lemma str_truthy_false (s : string) : str_truthy s = false <-> s = EmptyString.
Proof. destruct s; simpl; split; congruence. Qed.


End Handlers.

(** X6. [wipe_chat] returns and leaves exactly one message, the notice
    from ["System"] without expiry, in the store and in the chat list,
    whatever the store held and whatever the clock reads.  It does not
    touch the peer key, the peer id or the connected flag. *)
Theorem wipe_leaves_one_notice (c : clock) (a : App) :
  let r := wipe_chat c a in
  fst r = Ok tt
  /\ store (snd r) = [mk_message "System" wiped_notice None (strftime_HM c)]
  /\ chat_list (snd r) = store (snd r)
  /\ crypto (snd r) = crypto a
  /\ peer_id (snd r) = peer_id a
  /\ is_connected (snd r) = is_connected a.
Proof.
  cbv zeta. unfold wipe_chat, store_add, refresh_chat, mbind, assign.
  cbn. repeat split.
Qed.


(** ** The polling loop *)

Section Polling.



End Polling.



(** ** Sending a message *)

Section Sending.

Lemma digit_classes (ch : ascii) :
  is_ascii_digit ch = true ->
  Py_UNICODE_ISSPACE ch = false /\ Py_UNICODE_ISDIGIT ch = true.
Proof.
  destruct ch as [[|] [|] [|] [|] [|] [|] [|] [|]]; vm_compute;
    intros H; try discriminate H; split; reflexivity.
Qed.

Lemma uint_digits (d : Decimal.uint) :
  forallb is_ascii_digit (list_ascii_of_string (NilEmpty.string_of_uint d)) = true.
Proof. induction d; simpl; try rewrite IHd; reflexivity. Qed.

Lemma numeral_digits (n : N) :
  forallb is_ascii_digit (list_ascii_of_string (numeral n)) = true.
Proof.
  unfold numeral, NilZero.string_of_uint.
  destruct (N.to_uint n); try apply uint_digits. reflexivity.
Qed.

Lemma numeral_truthy (n : N) : str_truthy (numeral n) = true.
Proof.
  unfold numeral, NilZero.string_of_uint.
  destruct (N.to_uint n); reflexivity.
Qed.

Lemma numeral_parses (n : N) :
  NilZero.uint_of_string (numeral n) = Some (N.to_uint n).
Proof.
  unfold numeral. apply NilZero.usu.
  destruct n as [| p]; [discriminate |].
  apply DecimalPos.Unsigned.to_uint_nonnil.
Qed.

Lemma lstrip_no_space (s : list ascii) :
  forallb (fun ch => negb (Py_UNICODE_ISSPACE ch)) s = true -> lstrip s = s.
Proof.
  destruct s as [| ch s]; simpl; [reflexivity |].
  destruct (Py_UNICODE_ISSPACE ch); [discriminate | reflexivity].
Qed.

Lemma str_strip_no_space (s : string) :
  forallb (fun ch => negb (Py_UNICODE_ISSPACE ch)) (list_ascii_of_string s) = true ->
  str_strip s = s.
Proof.
  intros H. unfold str_strip, rstrip.
  rewrite (lstrip_no_space _ H), lstrip_no_space.
  - rewrite rev_involutive. apply string_of_list_ascii_of_string.
  - apply forallb_forall. intros ch Hch. apply in_rev in Hch.
    rewrite forallb_forall in H. now apply H.
Qed.

Lemma digits_no_space (s : list ascii) :
  forallb is_ascii_digit s = true ->
  forallb (fun ch => negb (Py_UNICODE_ISSPACE ch)) s = true
  /\ forallb Py_UNICODE_ISDIGIT s = true
  /\ count_digits s = List.length s.
Proof.
  induction s as [| ch s IH]; simpl; [repeat split |].
  intros H. apply andb_true_iff in H. destruct H as [Hc Hs].
  destruct (digit_classes ch Hc) as [H1 H2]. destruct (IH Hs) as [I1 [I2 I3]].
  rewrite H1, H2, Hc, I1, I2, I3. repeat split.
Qed.

Lemma py_int_numeral (max_str_digits : nat) (n : N) :
  max_str_digits = 0 \/ String.length (numeral n) <= max_str_digits ->
  py_int max_str_digits (numeral n) = Ok (Z.of_N n).
Proof.
  intros Hmax. unfold py_int.
  destruct (digits_no_space _ (numeral_digits n)) as [_ [_ Hc]].
  rewrite Hc, list_ascii_of_string_length.
  replace ((0 <? max_str_digits) && (max_str_digits <? String.length (numeral n)))
    with false.
  - rewrite numeral_parses. unfold Z.of_uint.
    change (Pos.of_uint (N.to_uint n)) with (N.of_uint (N.to_uint n)).
    now rewrite DecimalN.Unsigned.of_to.
  - symmetry. apply andb_false_iff. destruct Hmax as [-> | Hle].
    + now left.
    + right. apply Nat.ltb_ge. exact Hle.
Qed.

Lemma parse_ttl_numeral (max_str_digits : nat) (n : N) :
  max_str_digits = 0 \/ String.length (numeral n) <= max_str_digits ->
  parse_ttl max_str_digits (numeral n) = Ok (Some (Z.of_N n)).
Proof.
  intros Hmax. unfold parse_ttl.
  destruct (digits_no_space _ (numeral_digits n)) as [Hns [Hd _]].
  rewrite (str_strip_no_space _ Hns).
  unfold str_isdigit. rewrite numeral_truthy, Hd. cbn [andb].
  now rewrite py_int_numeral.
Qed.

Lemma strip_truthy (v : string) :
  str_truthy (str_strip v) = true -> str_truthy v = true.
Proof. destruct v; [discriminate | reflexivity]. Qed.

Lemma nonblank_truthy (v : string) :
  forallb Py_UNICODE_ISSPACE (list_ascii_of_string v) = false ->
  str_truthy (str_strip v) = true.
Proof.
  intros H. destruct (str_truthy (str_strip v)) eqn:E; [reflexivity |].
  apply str_truthy_false, str_strip_empty in E. congruence.
Qed.


(** The state [send_message] leaves when [add] raises. *)
Lemma send_add_raises (max_str_digits : nat) (c c' : clock) (a : App) (f : Form)
    (ttl : option Z) (e : exn) :
  forallb Py_UNICODE_ISSPACE (list_ascii_of_string (msg_input f)) = false ->
  parse_ttl max_str_digits (ttl_input f) = Ok ttl ->
  MessageStore.entry c "You" (str_strip (msg_input f)) ttl = Raise e ->
  send_message max_str_digits c c' (a, f) = (Some e, (a, f)).
Proof.
  intros Hmsg Hp He. unfold send_message.
  rewrite (nonblank_truthy _ Hmsg). cbn [negb]. rewrite Hp.
  unfold MessageStore.add. rewrite He. reflexivity.
Qed.

End Sending.

(** X9. A message field that is empty or white space only makes
    [send_message] return at once: nothing is added, nothing is pruned,
    and the two fields keep their text. *)
Theorem blank_message_is_ignored
    (max_str_digits : nat) (c c' : clock) (a : App) (f : Form) :
  forallb Py_UNICODE_ISSPACE (list_ascii_of_string (msg_input f)) = true ->
  send_message max_str_digits c c' (a, f) = (None, (a, f)).
Proof.
  intros Hb. unfold send_message.
  now rewrite (str_strip_blank _ Hb).
Qed.

Lemma blank_message_is_ignored_witness :
  send_message 4300 (mk_clock (seconds 100) "12:00") (mk_clock (seconds 101) "12:00")
    (App_init [x2a], mk_Form "  " "5")
  = (None, (App_init [x2a], mk_Form "  " "5")).
Proof.
  apply (@blank_message_is_ignored 4300 (mk_clock (seconds 100) "12:00")
           (mk_clock (seconds 101) "12:00") (App_init [x2a]) (mk_Form "  " "5")).
  reflexivity.
Defined.





Section SendingFailures.

Lemma uint_of_char_digit (ch : ascii) (d d' : Decimal.uint) :
  uint_of_char ch (Some d) = Some d' -> is_ascii_digit ch = true.
Proof.
  intros H. apply uint_of_char_spec in H.
  repeat (destruct H as [[-> _] | H]; [reflexivity |]).
  destruct H as [-> _]. reflexivity.
Qed.

Lemma uint_of_string_digits (s : string) (d : Decimal.uint) :
  NilEmpty.uint_of_string s = Some d ->
  forallb is_ascii_digit (list_ascii_of_string s) = true.
Proof.
  revert d; induction s as [| ch s IH]; intros d H; [reflexivity |].
  simpl in H. destruct (NilEmpty.uint_of_string s) as [d0 |] eqn:E;
    [| discriminate].
  simpl. rewrite (uint_of_char_digit _ _ H), (IH d0 eq_refl). reflexivity.
Qed.

Lemma py_int_refuses (max_str_digits : nat) (s : string) :
  forallb is_ascii_digit (list_ascii_of_string s) = false ->
  exists msg : string, py_int max_str_digits s = Raise (ValueError msg).
Proof.
  intros H. unfold py_int.
  destruct ((0 <? max_str_digits)
            && (max_str_digits <? count_digits (list_ascii_of_string s)));
    [eexists; reflexivity |].
  destruct (NilZero.uint_of_string s) as [d |] eqn:E; [| eexists; reflexivity].
  unfold NilZero.uint_of_string in E. destruct s as [| ch s]; [discriminate |].
  apply uint_of_string_digits in E. congruence.
Qed.

End SendingFailures.

(** X12. A TTL field that [isdigit] accepts but that holds a character
    which is no decimal digit (a superscript two, three or one) makes
    [send_message] raise [ValueError] out of the handler: the message is
    not added and both fields keep their text. *)
Theorem superscript_ttl_raises
    (max_str_digits : nat) (c c' : clock) (a : App) (f : Form) :
  forallb Py_UNICODE_ISSPACE (list_ascii_of_string (msg_input f)) = false ->
  str_isdigit (str_strip (ttl_input f)) = true ->
  forallb is_ascii_digit (list_ascii_of_string (str_strip (ttl_input f))) = false ->
  exists msg : string,
    send_message max_str_digits c c' (a, f) = (Some (ValueError msg), (a, f)).
Proof.
  intros Hmsg Hd Hsup.
  destruct (py_int_refuses max_str_digits _ Hsup) as [msg Hint].
  exists msg. unfold send_message.
  rewrite (nonblank_truthy _ Hmsg). cbn [negb].
  unfold parse_ttl. rewrite Hd, Hint.
  assert (Ht : str_truthy (ttl_input f) = true).
  { apply strip_truthy. unfold str_isdigit in Hd.
    now apply andb_true_iff in Hd. }
  rewrite Ht. reflexivity.
Qed.

Lemma superscript_ttl_raises_witness :
  exists msg : string,
    send_message 4300 (mk_clock (seconds 100) "12:00") (mk_clock (seconds 101) "12:00")
      (App_init [x2a], mk_Form "hi" (String "178" EmptyString))
    = (Some (ValueError msg),
       (App_init [x2a], mk_Form "hi" (String "178" EmptyString))).
Proof.
  apply (@superscript_ttl_raises 4300 (mk_clock (seconds 100) "12:00")
           (mk_clock (seconds 101) "12:00")
           (App_init [x2a]) (mk_Form "hi" (String "178" EmptyString))).
  - reflexivity.
  - reflexivity.
  - reflexivity.
Defined.

(** X13. A TTL field that holds the numeral of an integer at or above
    [2^1024 - 2^970], within the interpreter's digit limit, makes
    [send_message] raise [OverflowError] out of the handler, from the
    addition in [add]: the message is not added and both fields keep
    their text. *)
Theorem huge_ttl_raises
    (max_str_digits : nat) (c c' : clock) (a : App) (f : Form) (n : N) :
  forallb Py_UNICODE_ISSPACE (list_ascii_of_string (msg_input f)) = false ->
  ttl_input f = numeral n ->
  max_str_digits = 0 \/ String.length (numeral n) <= max_str_digits ->
  (2 ^ 1024 - 2 ^ 970 <= Z.of_N n)%Z ->
  send_message max_str_digits c c' (a, f)
  = (Some (OverflowError "int too large to convert to float"), (a, f)).
Proof.
  intros Hmsg Httl Hmax Hbig.
  apply (@send_add_raises max_str_digits c c' a f (Some (Z.of_N n))).
  - exact Hmsg.
  - rewrite Httl. now apply parse_ttl_numeral.
  - apply entry_overflows.
    rewrite Z.abs_eq by apply N2Z.is_nonneg. exact Hbig.
Qed.

Lemma huge_ttl_raises_witness :
  send_message 4300 (mk_clock (seconds 100) "12:00") (mk_clock (seconds 101) "12:00")
    (App_init [x2a], mk_Form "hi" (numeral (2 ^ 1024)))
  = (Some (OverflowError "int too large to convert to float"),
     (App_init [x2a], mk_Form "hi" (numeral (2 ^ 1024)))).
Proof.
  apply (@huge_ttl_raises 4300 (mk_clock (seconds 100) "12:00")
           (mk_clock (seconds 101) "12:00")
           (App_init [x2a]) (mk_Form "hi" (numeral (2 ^ 1024))) (2 ^ 1024)%N).
  - reflexivity.
  - reflexivity.
  - right. vm_compute. repeat constructor.
  - vm_compute. discriminate.
Defined.

(** ** The countdown of a bubble *)

Section Countdown.

Lemma py_int_below_one (x : Q) : (x < 1)%Q -> (py_int_of_Q x <= 0)%Z.
Proof.
  unfold Qlt, py_int_of_Q. cbn [Qnum Qden]. intros H.
  assert (Hd : (0 < QDen x)%Z) by reflexivity.
  destruct (Z.le_gt_cases 0 (Qnum x)) as [Hpos | Hneg].
  - rewrite Z.quot_small; lia.
  - replace (Qnum x) with (- - Qnum x)%Z by lia.
    rewrite Z.quot_opp_l by lia.
    assert (0 <= Z.quot (- Qnum x) (QDen x))%Z by (apply Z.quot_pos; lia).
    lia.
Qed.

Lemma py_int_floor (x : Q) :
  (1 <= x)%Q ->
  (1 <= py_int_of_Q x)%Z
  /\ (inject_Z (py_int_of_Q x) <= x)%Q
  /\ (x < inject_Z (py_int_of_Q x + 1))%Q.
Proof.
  unfold Qle, Qlt, py_int_of_Q. cbn [Qnum Qden inject_Z]. intros H.
  assert (Hd : (0 < QDen x)%Z) by reflexivity.
  rewrite Z.quot_div_nonneg by lia.
  pose proof (Z.mul_div_le (Qnum x) (QDen x) Hd) as Hlo.
  pose proof (Z.mul_succ_div_gt (Qnum x) (QDen x) Hd) as Hhi.
  assert (H1 : (1 <= Qnum x / QDen x)%Z) by (apply Z.div_le_lower_bound; lia).
  repeat split; [exact H1 | lia | lia].
Qed.

End Countdown.

(** X14. The countdown of a bubble.  For a message whose expiry [e] is
    set and not zero, let [d] be the binary64 difference of [e] and the
    clock value read for the bubble.  When [d] is an infinity or not a
    number, the rendering raises.  Otherwise the time label is followed
    by a countdown exactly when [d] is at least one: the number shown is
    the whole part [k >= 1] of [d], and when [d] is below one (less than
    a second left, or past the expiry) the label stands alone. *)
Theorem countdown_shows_whole_seconds (now e : float) (m : message) :
  expiry m = Some e -> float_truthy e = true ->
  let d := float_sub e now in
  (float_finite d = false -> exists ex : exn, render now m = Raise ex)
  /\ (float_finite d = true ->
      exists b : bubble,
        render now m = Ok b
        /\ ((Q_of_float d < 1)%Q -> bubble_time_info b = time m)
        /\ ((1 <= Q_of_float d)%Q ->
            exists k : N,
              (1 <= k)%N
              /\ (inject_Z (Z.of_N k) <= Q_of_float d)%Q
              /\ (Q_of_float d < inject_Z (Z.of_N k + 1))%Q
              /\ bubble_time_info b
                 = (time m ++ " 🔥" ++ numeral k ++ "s")%string)).
Proof.
  intros He Ht d.
  assert (Hr : render now m
               = (remaining <- py_int_of_float d ;;
                  let info :=
                    if (0 <? remaining)%Z
                    then (time m ++ " 🔥" ++ numeral (Z.to_N remaining) ++ "s")%string
                    else time m in
                  let is_you := String.eqb (sender m) "You" in
                  let (bg, fg) :=
                    if String.eqb (sender m) "System" then (AMBER_100, BLACK)
                    else if is_you then (BLUE_400, WHITE) else (GREEN_400, WHITE) in
                  Ok (mk_bubble (sender m) info (body m) fg bg
                        (if is_you then 50 else 0) (if is_you then 0 else 50)))).
  { unfold render. rewrite He. cbn [expiry_truthy]. rewrite Ht. fold d.
    destruct (py_int_of_float d); reflexivity. }
  split.
  - intros Hf. rewrite Hr.
    destruct d as [s | s | | s md ed]; try discriminate Hf; eexists; reflexivity.
  - intros Hf.
    assert (Hi : py_int_of_float d = Ok (py_int_of_Q (Q_of_float d))).
    { destruct d as [s | s | | s md ed]; try discriminate Hf; reflexivity. }
    rewrite Hr, Hi. cbn [bind].
    destruct (String.eqb (sender m) "System"), (String.eqb (sender m) "You");
      cbv zeta; (eexists; split; [reflexivity |]); cbn [bubble_time_info];
      (split;
       [ intros Hlt; pose proof (py_int_below_one Hlt) as Hle;
         destruct (Z.ltb_spec 0 (py_int_of_Q (Q_of_float d))); [lia | reflexivity]
       | intros Hge; destruct (py_int_floor Hge) as [H1 [Hlo Hhi]];
         exists (Z.to_N (py_int_of_Q (Q_of_float d)));
         rewrite Z2N.id by lia;
         (split; [lia |]); (split; [exact Hlo |]); (split; [exact Hhi |]);
         destruct (Z.ltb_spec 0 (py_int_of_Q (Q_of_float d)));
         [reflexivity | lia] ]).
Qed.

Lemma countdown_shows_whole_seconds_witness :
  let m := mk_message "You" "hi" (Some (seconds 105)) "12:00" in
  let now := dyadic 201 (-1) in
  let d := float_sub (seconds 105) now in
  (float_finite d = false -> exists ex : exn, render now m = Raise ex)
  /\ (float_finite d = true ->
      exists b : bubble,
        render now m = Ok b
        /\ ((Q_of_float d < 1)%Q -> bubble_time_info b = time m)
        /\ ((1 <= Q_of_float d)%Q ->
            exists k : N,
              (1 <= k)%N
              /\ (inject_Z (Z.of_N k) <= Q_of_float d)%Q
              /\ (Q_of_float d < inject_Z (Z.of_N k + 1))%Q
              /\ bubble_time_info b
                 = (time m ++ " 🔥" ++ numeral k ++ "s")%string)).
Proof.
  apply (@countdown_shows_whole_seconds (dyadic 201 (-1)) (seconds 105)
           (mk_message "You" "hi" (Some (seconds 105)) "12:00")).
  - reflexivity.
  - reflexivity.
Defined.

(** ** Invariants of the page *)

Section Page.

Variable max_str_digits : nat.

Lemma Forall_cleanup (P : message -> Prop) (now : float) (s : MessageStore.t) :
  Forall P s -> Forall P (MessageStore.cleanup_expired now s).
Proof.
  intros H. apply Forall_forall. intros m Hm.
  apply in_cleanup in Hm. rewrite Forall_forall in H. now apply H.
Qed.

Lemma unicode_space_covers (ch : ascii) :
  Py_UNICODE_ISSPACE ch = false -> Py_ISSPACE ch = false.
Proof.
  destruct ch as [[|] [|] [|] [|] [|] [|] [|] [|]]; vm_compute;
    intros H; try discriminate H; reflexivity.
Qed.

Lemma fromhex_loop_nonempty (ch : ascii) (s : list ascii) (pos : nat) (out : bytes) :
  Py_ISSPACE ch = false -> fromhex_loop (ch :: s) pos = Ok out -> out <> [].
Proof.
  intros Hs Hok. cbn [fromhex_loop] in Hok. rewrite Hs in Hok.
  destruct (16 <=? PyLong_DigitValue ch)%N; [discriminate |].
  destruct s as [| d s2]; [discriminate |].
  destruct (16 <=? PyLong_DigitValue d)%N; [discriminate |].
  destruct (fromhex_loop s2 (S (S pos))); cbn [bind] in Hok; [| discriminate].
  inversion Hok. discriminate.
Qed.

Lemma str_strip_head (v : string) (ch : ascii) (rest : string) :
  str_strip v = String ch rest -> Py_UNICODE_ISSPACE ch = false.
Proof.
  unfold str_strip, rstrip. intros H.
  apply (f_equal list_ascii_of_string) in H.
  rewrite list_ascii_of_string_of_list_ascii in H. cbn [list_ascii_of_string] in H.
  destruct (lstrip (list_ascii_of_string v)) as [| c0 r] eqn:E; [discriminate |].
  pose proof (lstrip_head _ E) as Hc0.
  (* the head of [rev (lstrip (rev (c0 :: r)))] is [c0] *)
  assert (Hlast : exists r', lstrip (rev (c0 :: r)) = r' ++ [c0]).
  { clear H E. simpl. induction (rev r) as [| x l IH]; simpl.
    - rewrite Hc0. now exists [].
    - destruct (Py_UNICODE_ISSPACE x); [exact IH |].
      exists (x :: l). reflexivity. }
  destruct Hlast as [r' Hr']. rewrite Hr', rev_app_distr in H.
  simpl in H. inversion H; subst. exact Hc0.
Qed.

Lemma dialog_key_nonempty (pid : string) (key : bytes) :
  str_truthy (str_strip pid) = true ->
  bytes_fromhex (ljust (str_strip pid) 64 "0") = Ok key -> key <> [].
Proof.
  intros Ht Hok. destruct (str_strip pid) as [| ch rest] eqn:E; [discriminate |].
  apply str_strip_head in E. apply unicode_space_covers in E.
  unfold bytes_fromhex in Hok.
  destruct (first_non_ascii _ 0); [discriminate |].
  assert (Hhead : exists s, list_ascii_of_string (ljust (String ch rest) 64 "0") = ch :: s).
  { unfold ljust. destruct (64 <=? String.length (String ch rest)); simpl; eauto. }
  destruct Hhead as [s Hs]. rewrite Hs in Hok.
  exact (@fromhex_loop_nonempty ch s 0 key E Hok).
Qed.

Lemma entry_sender (c : clock) (who text : string) (ttl : option Z) (m : message) :
  MessageStore.entry c who text ttl = Ok m -> sender m = who.
Proof.
  unfold MessageStore.entry.
  destruct (if ttl_truthy ttl then _ else _) as [x | e]; cbn [bind];
    intros H; [| discriminate].
  inversion H. reflexivity.
Qed.

Lemma send_cases (c c' : clock) (a : App) (f : Form) :
  fst (snd (send_message max_str_digits c c' (a, f))) = a
  \/ exists m : message,
       sender m = "You"
       /\ let st :=
            MessageStore.cleanup_expired (time_time c') (store a ++ [m]) in
          fst (snd (send_message max_str_digits c c' (a, f)))
          = set_chat_list st (set_store st a).
Proof.
  unfold send_message.
  destruct (str_truthy (str_strip (msg_input f))); cbn [negb]; [| now left].
  destruct (parse_ttl max_str_digits (ttl_input f)) as [ttl | e]; [| now left].
  unfold MessageStore.add.
  destruct (MessageStore.entry c "You" (str_strip (msg_input f)) ttl)
    as [m | e] eqn:E; cbn [bind]; [| now left].
  right. exists m. split; [exact (entry_sender _ _ _ _ E) |].
  unfold refresh_chat, mbind, assign. cbn. reflexivity.
Qed.

Lemma handle_inv (rand : bytes) (a : App) (e : event) :
  page_inv rand a -> page_inv rand (handle max_str_digits a e).
Proof.
  intros [Hown [Hview [Hkey [Hck [Hcp Hne]]]]].
  destruct e as [c input | c c' msg ttl | c | c]; cbn [handle].
  - unfold dialog_connect.
    destruct (str_truthy (str_strip input)) eqn:Ht;
      [| repeat split; try assumption; try apply Hck; try apply Hcp].
    destruct (bytes_fromhex (ljust (str_strip input) 64 "0")) as [key | ex] eqn:Hd.
    + destruct (connect_decoded c (str_strip input) a Hd)
        as [_ [Hcr [Hic [Hpi [Hcl Hst]]]]].
      unfold page_inv. rewrite Hcl, Hst, Hcr, Hic, Hpi. cbn.
      repeat split; try eauto.
      * apply Forall_app. split; [now apply Forall_cleanup |].
        constructor; [right; split; reflexivity | constructor].
      * intros key' Hk. inversion Hk; subst.
        exact (dialog_key_nonempty input Ht Hd).
    + destruct (connect_refused c (str_strip input) a Hd)
        as [_ [Hcr [Hic [Hpi [Hcl Hst]]]]].
      unfold page_inv. rewrite Hcl, Hst, Hcr, Hic, Hpi.
      repeat split; try assumption; try apply Hck; try apply Hcp.
      apply Forall_app. split; [now apply Forall_cleanup |].
      constructor; [right; split; reflexivity | constructor].
  - destruct (send_cases c c' a (mk_Form msg ttl)) as [-> | [m [Hm Hs]]].
    + repeat split; try assumption; try apply Hck; try apply Hcp.
    + cbv zeta in Hs. rewrite Hs. unfold page_inv. cbn.
      repeat split; try assumption; try apply Hck; try apply Hcp.
      apply Forall_cleanup. apply Forall_app. split; [assumption |].
      constructor; [now left | constructor].
  - unfold wipe_chat, store_add, refresh_chat, mbind, assign, page_inv. cbn.
    repeat split; try assumption; try apply Hck; try apply Hcp.
    constructor; [right; split; reflexivity | constructor].
  - unfold refresh_chat, mbind, assign, page_inv. cbn.
    repeat split; try assumption; try apply Hck; try apply Hcp.
    now apply Forall_cleanup.
Qed.

Lemma init_inv (rand : bytes) : page_inv rand (App_init rand).
Proof.
  unfold page_inv, App_init. cbn.
  repeat split; try constructor; try discriminate;
    intros [x Hx]; discriminate.
Qed.

Lemma run_inv (rand : bytes) (evs : list event) :
  forall a : App,
    page_inv rand a -> page_inv rand (fold_left (handle max_str_digits) evs a).
Proof.
  induction evs as [| e evs IH]; intros a Ha; [exact Ha |].
  simpl. apply IH. now apply handle_inv.
Qed.

Lemma handle_stays_connected (a : App) (e : event) :
  is_connected a = true -> is_connected (handle max_str_digits a e) = true.
Proof.
  intros Hc. destruct e as [c input | c c' msg ttl | c | c]; cbn [handle].
  - unfold dialog_connect.
    destruct (str_truthy (str_strip input)); [| exact Hc].
    destruct (bytes_fromhex (ljust (str_strip input) 64 "0")) as [key | ex] eqn:Hd.
    + now destruct (connect_decoded c (str_strip input) a Hd) as [_ [_ [H _]]].
    + destruct (connect_refused c (str_strip input) a Hd) as [_ [_ [H _]]].
      now rewrite H.
  - destruct (send_cases c c' a (mk_Form msg ttl)) as [-> | [m [_ Hs]]];
      [exact Hc |].
    cbv zeta in Hs. rewrite Hs. exact Hc.
  - exact Hc.
  - exact Hc.
Qed.

End Page.

(** X15. No message from a peer.  After every sequence of connect, send
    and wipe clicks and refresh ticks on a fresh page, every message in
    the store is from ["You"] or is a notice from ["System"] without
    expiry: nothing a peer has sent is ever stored or shown. *)
Theorem only_own_messages (max_str_digits : nat) (rand : bytes) (evs : list event) :
  Forall own_message (store (session max_str_digits rand evs))
  /\ Forall own_message (chat_list (session max_str_digits rand evs)).
Proof.
  destruct (@run_inv max_str_digits rand evs (App_init rand) (init_inv rand))
    as [Hown [Hview _]].
  fold (session max_str_digits rand evs) in Hown, Hview.
  split; [exact Hown | now rewrite Hview].
Qed.


(** X17. No handler disconnects.  Once the connected flag is set, it
    stays set through every later event, a failed connect included. *)
Theorem connection_is_never_dropped
    (max_str_digits : nat) (rand : bytes) (before after : list event) :
  is_connected (session max_str_digits rand before) = true ->
  is_connected (session max_str_digits rand (before ++ after)) = true.
Proof.
  unfold session. rewrite fold_left_app.
  generalize (fold_left (handle max_str_digits) before (App_init rand)) as a.
  induction after as [| e after IH]; intros a Ha; [exact Ha |].
  simpl. apply IH. now apply handle_stays_connected.
Qed.

Lemma connection_is_never_dropped_witness :
  is_connected
    (session 4300 [x2a]
       ([ClickConnect (mk_clock (seconds 100) "12:00") " a1b2c3d4e5f60718 "]
        ++ [ClickConnect (mk_clock (seconds 101) "12:00") "not-hex!!";
            ClickWipe (mk_clock (seconds 102) "12:00")])) = true.
Proof.
  apply (@connection_is_never_dropped 4300 [x2a]
           [ClickConnect (mk_clock (seconds 100) "12:00") " a1b2c3d4e5f60718 "]
           [ClickConnect (mk_clock (seconds 101) "12:00") "not-hex!!";
            ClickWipe (mk_clock (seconds 102) "12:00")]).
  reflexivity.
Defined.
